(** * Nate's Door Service: the Express server of src/server.js

    A shallow embedding of the request handlers of [src/server.js] and of the
    part of Express they run in (route matching, [express.static],
    [res.sendFile], the final handler), followed by the properties the
    specification states about them.

    The library is Express 4: [app.get('*', ...)] is a path Express 5 does
    not accept. Its defaults apply throughout: routing is not case
    sensitive and not strict, [express.json()] accepts objects and arrays
    only and leaves [{}] when there is no JSON body, [express.static] and
    [res.sendFile] ignore a file whose name starts with a dot.

    Conventions.
    - A JavaScript string is a [string]: the bytes of its UTF-8 encoding.
    - [undefined] is [None] in [value := option json].
    - A thrown exception or a rejected promise is [Throw e] in [result].
    - The module-level variable [resend], [console.error] and the calls made
      to the Resend client are an explicit state, a log and a list of sent
      messages in the [effect] a handler returns.
    - A request is its method, its path and its parsed body. Requests whose
      JSON body does not parse (answered by [express.json()]) and
      conditional or range headers (which let [send] answer 304, 412, 206 or
      416) are outside the model.
    - The text of an error's stack, which Express's final handler writes
      with [console.error], and whether [app.listen] gets its port are what
      the runtime makes them: the first is a function of the host, the
      second an argument of [listen]. *)

From Stdlib Require Import Ascii String Bool List ZArith Lia.
From stdpp Require Import base gmap strings list.

Local Open Scope Z_scope.
Set Warnings "-register-all".

(** ** Strings *)

(** The double quote character, and a line feed. *)
Definition dq : string := String (ascii_of_nat 34) EmptyString.
Definition nl : string := String (ascii_of_nat 10) EmptyString.

(** [s.replace(/c/g, rep)] for a one-character pattern [c] and a replacement
    [rep] without [$]. *)
Fixpoint replace_char (c : ascii) (rep : string) (s : string) : string :=
  match s with
  | EmptyString => EmptyString
  | String x s' =>
      if Ascii.eqb x c then rep +:+ replace_char c rep s'
      else String x (replace_char c rep s')
  end.

(** [s.includes(c)] for one character. *)
Fixpoint has_char (c : ascii) (s : string) : bool :=
  match s with
  | EmptyString => false
  | String x s' => Ascii.eqb x c || has_char c s'
  end.

(** [s.startsWith(p)]. *)
Fixpoint starts_with (p s : string) : bool :=
  match p, s with
  | EmptyString, _ => true
  | String _ _, EmptyString => false
  | String a p', String b s' => Ascii.eqb a b && starts_with p' s'
  end.

(** [s.includes(p)]. *)
Fixpoint includes (p s : string) : bool :=
  starts_with p s ||
  match s with
  | EmptyString => false
  | String _ s' => includes p s'
  end.

(** [s.endsWith(p)] for one character. *)
Fixpoint ends_with_char (c : ascii) (s : string) : bool :=
  match s with
  | EmptyString => false
  | String x EmptyString => Ascii.eqb x c
  | String _ s' => ends_with_char c s'
  end.

Definition nonempty (s : string) : bool :=
  match s with EmptyString => false | String _ _ => true end.

(** ** JavaScript values that a JSON body can hold *)

(** A JSON number is used by this program only through [ToBoolean] and
    [ToString]; it is represented by these two observations. *)
Record number := { num_nonzero : bool; num_text : string }.

Inductive json :=
| JNull
| JBool (b : bool)
| JNum (n : number)
| JStr (s : string)
| JArr (items : list json)
| JObj (props : list (string * json)).

(** A JavaScript value: [None] is [undefined]. *)
Definition value := option json.

(** An exception, or the reason of a rejected promise: an [Error] object
    ([new Error(message)], a [TypeError], ...) or any other value. *)
Inductive thrown :=
| ErrorObject (message : string)
| ThrownValue (v : value).

Inductive result (A : Type) :=
| Ok (a : A)
| Throw (e : thrown).
Arguments Ok {A} a.
Arguments Throw {A} e.

(** Sequencing: [x ← m; k] runs [k] when [m] returned and rethrows what
    [m] threw. *)
Global Instance result_ret : MRet result := fun A a => Ok a.
Global Instance result_bind : MBind result := fun A B k m =>
  match m with
  | Ok a => k a
  | Throw e => Throw e
  end.

(** Own property lookup in an object built by [JSON.parse]: a later
    duplicate of a key overrides an earlier one. *)
Fixpoint own_prop (k : string) (props : list (string * json)) : value :=
  match props with
  | [] => None
  | (k', v) :: rest =>
      match own_prop k rest with
      | Some v' => Some v'
      | None => if String.eqb k k' then Some v else None
      end
  end.

(** [o.k] for the property names this program reads ([name], [phone],
    [email], [message], and [message] of a caught value): none of them is
    defined on [Object.prototype], [Array.prototype] or a primitive's
    prototype, so only an object's own properties answer. *)
Definition get_prop (v : value) (k : string) : value :=
  match v with
  | Some (JObj props) => own_prop k props
  | _ => None
  end.

(** [ToBoolean]. *)
Definition truthy (v : value) : bool :=
  match v with
  | None => false
  | Some JNull => false
  | Some (JBool b) => b
  | Some (JNum n) => num_nonzero n
  | Some (JStr s) => nonempty s
  | Some (JArr _) => true
  | Some (JObj _) => true
  end.

(** [v ?? d]. *)
Definition nullish_or (v d : value) : value :=
  match v with
  | None => d
  | Some JNull => d
  | Some _ => v
  end.

Definition cannot_convert : thrown :=
  ErrorObject "Cannot convert object to primitive value".

(** [String(v)] for a value [v] that is not [undefined]. An array is joined
    with commas, [null] elements giving the empty string. An object parsed
    from JSON holds no function: with an own [toString] property neither
    [toString] nor [valueOf] yields a primitive and a [TypeError] is thrown,
    without one [Object.prototype.toString] answers. *)
Fixpoint to_string (v : json) : result string :=
  match v with
  | JNull => Ok "null"
  | JBool true => Ok "true"
  | JBool false => Ok "false"
  | JNum n => Ok (num_text n)
  | JStr s => Ok s
  | JArr items =>
      texts ← (fix elements (l : list json) : result (list string) :=
                  match l with
                  | [] => Ok []
                  | x :: l' =>
                      t ← match x with JNull => Ok EmptyString | _ => to_string x end;
                      ts ← elements l';
                      Ok (t :: ts)
                  end) items;
      Ok (String.concat "," texts)
  | JObj props =>
      match own_prop "toString" props with
      | Some _ => Throw cannot_convert
      | None => Ok "[object Object]"
      end
  end.

(** ** The sanitiser

    [const safe = str => String(str ?? '').replace(/</g, '&lt;').replace(/>/g, '&gt;');] *)

Definition escape (s : string) : string :=
  replace_char ">" "&gt;" (replace_char "<" "&lt;" s).

Definition safe (str : value) : result string :=
  s ← (match nullish_or str (Some (JStr EmptyString)) with
        | Some v => to_string v
        | None => Ok "undefined"
        end);
  Ok (escape s).

(** ** The outbound email *)

(** A JavaScript template literal: literal chunks and interpolated values. *)
Inductive part :=
| Lit (s : string)
| Interp (s : string).

Definition part_text (p : part) : string :=
  match p with Lit s => s | Interp s => s end.

Fixpoint render (ps : list part) : string :=
  match ps with
  | [] => EmptyString
  | p :: ps' => part_text p +:+ render ps'
  end.

(** [name="value"] inside a tag. *)
Definition attr (name val : string) : string :=
  name +:+ "=" +:+ dq +:+ val +:+ dq.

Definition lines (ls : list string) : string := String.concat nl ls.

Definition label_style : string :=
  "padding:8px 0; font-weight:bold; color:#374151;".
Definition cell_style : string := "padding:8px 0; color:#111827;".

(** The chunks of the [html] template, between its interpolations. *)
Definition html_head : string := lines [
  EmptyString;
  "        <div " +:+ attr "style" "font-family: Arial, sans-serif; max-width: 560px; margin: 0 auto;" +:+ ">";
  "          <h2 " +:+ attr "style" "color: #1e3a8a; border-bottom: 2px solid #dbeafe; padding-bottom: 8px;" +:+ ">";
  "            New Quote Request — Nate's Door Service";
  "          </h2>";
  "          <table " +:+ attr "style" "width:100%; border-collapse:collapse; margin-top:16px;" +:+ ">";
  "            <tr><td " +:+ attr "style" (label_style +:+ " width:30%;") +:+ ">Name</td>";
  "                <td " +:+ attr "style" cell_style +:+ ">" ].

Definition html_phone_row : string := lines [
  "</td></tr>";
  "            <tr><td " +:+ attr "style" label_style +:+ ">Phone</td>";
  "                <td " +:+ attr "style" cell_style +:+ "><a href=" +:+ dq +:+ "tel:" ].

Definition html_email_row : string := lines [
  "</a></td></tr>";
  "            <tr><td " +:+ attr "style" label_style +:+ ">Email</td>";
  "                <td " +:+ attr "style" cell_style +:+ ">" ].

Definition html_message_row : string := lines [
  "</td></tr>";
  "            <tr><td " +:+ attr "style" (label_style +:+ " vertical-align:top;") +:+ ">Message</td>";
  "                <td " +:+ attr "style" (cell_style +:+ " white-space:pre-wrap;") +:+ ">" ].

Definition html_foot : string := lines [
  "</td></tr>";
  "          </table>";
  "          <p " +:+ attr "style" "margin-top:24px; font-size:12px; color:#9ca3af;" +:+ ">";
  "            Sent from natesdoorservice.com contact form";
  "          </p>";
  "        </div>";
  "      " ].

Definition em_dash : string := "—".

(** [email ? `<a href="mailto:${safe(email)}">${safe(email)}</a>` : '—'],
    given the two results of [safe(email)]. *)
Definition email_cell (email : value) (e1 e2 : string) : list part :=
  if truthy email
  then [Lit ("<a href=" +:+ dq +:+ "mailto:"); Interp e1; Lit (dq +:+ ">");
        Interp e2; Lit "</a>"]
  else [Lit em_dash].

(** The [html] template, given the sanitised values in the order the
    template evaluates them. *)
Definition html_parts (email : value) (n p1 p2 e1 e2 m : string) : list part :=
  [Lit html_head; Interp n;
   Lit html_phone_row; Interp p1; Lit (dq +:+ ">"); Interp p2;
   Lit html_email_row] ++
  email_cell email e1 e2 ++
  [Lit html_message_row; Interp m; Lit html_foot].

Record outbound_email := {
  from : string;
  to : list string;
  replyTo : value;
  subject : string;
  html : string
}.

(** [process.env]. *)
Definition environment := gmap string string.

(** [process.env.K ?? d]. *)
Definition env_or (env : environment) (k d : string) : string :=
  match env !! k with
  | Some v => v
  | None => d
  end.

Definition default_from : string :=
  "Nate's Door Service <onboarding@resend.dev>".
Definition default_to : string := "contact@natesdoorservice.com".

(** The argument of [emails.send], its properties evaluated in source order;
    [safe(email)] is evaluated only when [email] is truthy. *)
Definition build_email (env : environment) (name phone email message : value)
  : result outbound_email :=
  let from_ := env_or env "FROM_EMAIL" default_from in
  let to_ := [env_or env "TO_EMAIL" default_to] in
  let reply := if truthy email then email else None in
  subj ← safe name;
  n ← safe name;
  p1 ← safe phone;
  p2 ← safe phone;
  e ← (if truthy email
        then e1 ← safe email; e2 ← safe email; Ok (e1, e2)
        else Ok (EmptyString, EmptyString));
  m ← safe message;
  Ok {| from := from_;
        to := to_;
        replyTo := reply;
        subject := "New Quote Request from " +:+ subj;
        html := render (html_parts email n p1 p2 (fst e) (snd e) m) |}.

(** ** The Resend client, created on first use *)

(** [new Resend(key)]. *)
Record client := { api_key : string }.

(** The module-level variable [let resend;]. *)
Record state := { resend : option client }.

(** The state when the module has been loaded: [resend] is [undefined]. *)
Definition initial_state : state := {| resend := None |}.

Definition key_missing : thrown :=
  ErrorObject "RESEND_API_KEY is not set. Add it to your .env file.".

(** [getResend()]: the client, and the state it leaves. An environment
    variable set to the empty string is falsy, like an unset one. *)
Definition getResend (env : environment) (st : state) : result client * state :=
  match resend st with
  | Some c => (Ok c, st)
  | None =>
      match env !! "RESEND_API_KEY" with
      | Some key =>
          if nonempty key
          then let c := {| api_key := key |} in (Ok c, {| resend := Some c |})
          else (Throw key_missing, st)
      | None => (Throw key_missing, st)
      end
  end.

(** The email-sending collaborator: how the promise returned by
    [client.emails.send(mail)] settles. The value it resolves with is not
    looked at by the handler. *)
Inductive settled :=
| Resolved
| Rejected (reason : thrown).

Definition collaborator := client -> outbound_email -> settled.

(** ** Responses and effects *)

Inductive payload :=
| Json (j : json)                 (* res.json(j) *)
| FileContent (content : string)  (* res.sendFile(path), express.static *)
| Redirect                        (* express.static, to a directory's path with a slash *)
| Allow (methods : list string)   (* the router's answer to OPTIONS *)
| DefaultPage.                    (* the final handler's page *)

(** What is given to [res]: the status and the payload. For a [HEAD]
    request Node sends the same status and headers without the payload. *)
Record response := { status : Z; body : payload }.

(** What handling one request does: the response, the state left, the
    lines written with [console.error] (the first argument of each call and
    its second, [None] when there is none or it is [undefined]), and the
    messages handed to the collaborator. *)
Record effect := {
  answer : response;
  state_after : state;
  logged : list (string * value);
  sent : list (client * outbound_email)
}.

Definition quiet (st : state) (r : response) : effect :=
  {| answer := r; state_after := st; logged := []; sent := [] |}.

(** ** POST /api/contact *)

Definition validation_failed : response :=
  {| status := 400;
     body := Json (JObj [("error", JStr "Please fill in all required fields.")]) |}.

Definition send_failed : response :=
  {| status := 500;
     body := Json (JObj [("error", JStr "Failed to send email. Please try again.")]) |}.

Definition send_succeeded : response :=
  {| status := 200; body := Json (JObj [("success", JBool true)]) |}.

(** [err?.message ?? err]. *)
Definition error_text (err : thrown) : value :=
  match err with
  | ErrorObject message => Some (JStr message)
  | ThrownValue v => nullish_or (get_prop v "message") v
  end.

(** The [catch] block. *)
Definition caught (st : state) (err : thrown)
    (calls : list (client * outbound_email)) : effect :=
  {| answer := send_failed;
     state_after := st;
     logged := [("Resend error:", error_text err)];
     sent := calls |}.

(** The handler of [app.post('/api/contact', ...)]. [req_body] is
    [req.body] as [express.json()] leaves it: an object or an array.
    Inside [try], [getResend()] is evaluated before the argument of
    [send]. *)
Definition contact (env : environment) (collab : collaborator) (st : state)
    (req_body : json) : effect :=
  let name := get_prop (Some req_body) "name" in
  let phone := get_prop (Some req_body) "phone" in
  let email := get_prop (Some req_body) "email" in
  let message := get_prop (Some req_body) "message" in
  if negb (truthy name) || negb (truthy phone) || negb (truthy message)
  then quiet st validation_failed
  else
    let (got, st') := getResend env st in
    match (c ← got; mail ← build_email env name phone email message; Ok (c, mail)) with
    | Throw err => caught st' err []
    | Ok (c, mail) =>
        match collab c mail with
        | Resolved =>
            {| answer := send_succeeded; state_after := st';
               logged := []; sent := [(c, mail)] |}
        | Rejected err => caught st' err [(c, mail)]
        end
    end.

(** ** Paths (Node's [path] module, POSIX) *)

(** [s.split(c)]. *)
Fixpoint split_on (c : ascii) (s : string) : list string :=
  match s with
  | EmptyString => [EmptyString]
  | String x s' =>
      if Ascii.eqb x c then EmptyString :: split_on c s'
      else match split_on c s' with
           | seg :: rest => String x seg :: rest
           | [] => [String x EmptyString]
           end
  end.

(** The segments [normalize] keeps, last one first in [kept]: empty
    segments and [.] are dropped, [..] removes the segment before it, and
    above the start it stays only in a relative path. *)
Fixpoint normalize_segments (allow_above : bool) (kept segs : list string)
  : list string :=
  match segs with
  | [] => rev kept
  | seg :: rest =>
      if String.eqb seg EmptyString || String.eqb seg "." then
        normalize_segments allow_above kept rest
      else if String.eqb seg ".." then
        match kept with
        | top :: below =>
            if String.eqb top ".."
            then normalize_segments allow_above (seg :: kept) rest
            else normalize_segments allow_above below rest
        | [] =>
            if allow_above
            then normalize_segments allow_above [seg] rest
            else normalize_segments allow_above [] rest
        end
      else normalize_segments allow_above (seg :: kept) rest
  end.

(** [path.normalize(p)]. *)
Definition normalize (p : string) : string :=
  if negb (nonempty p) then "." else
  let absolute := starts_with "/" p in
  let trailing := ends_with_char "/" p in
  let inner :=
    String.concat "/" (normalize_segments (negb absolute) [] (split_on "/" p)) in
  if negb (nonempty inner) then
    if absolute then "/" else if trailing then "./" else "."
  else
    (if absolute then "/" else EmptyString) +:+ inner +:+
    (if trailing then "/" else EmptyString).

(** [path.join(...args)]. *)
Definition path_join (args : list string) : string :=
  match List.filter nonempty args with
  | [] => "."
  | used => normalize (String.concat "/" used)
  end.

(** ** [decodeURIComponent] *)

Definition hex_digit (c : ascii) : option N :=
  let n := N_of_ascii c in
  if ((48 <=? n) && (n <=? 57))%N then Some (n - 48)%N
  else if ((65 <=? n) && (n <=? 70))%N then Some (n - 55)%N
  else if ((97 <=? n) && (n <=? 102))%N then Some (n - 87)%N
  else None.

(** The bytes of the decoded string, each with whether it was written as
    an escape [%XX]; [None] when [%] is not followed by two hex digits. *)
Fixpoint unescape (s : string) : option (list (bool * N)) :=
  match s with
  | EmptyString => Some []
  | String c rest =>
      if Ascii.eqb c "%" then
        match rest with
        | String a (String b rest') =>
            match hex_digit a, hex_digit b with
            | Some x, Some y =>
                bytes ← unescape rest'; Some ((true, 16 * x + y)%N :: bytes)
            | _, _ => None
            end
        | _ => None
        end
      else bytes ← unescape rest; Some ((false, N_of_ascii c) :: bytes)
  end.

Definition between (lo hi b : N) : bool := ((lo <=? b) && (b <=? hi))%N.

(** Every escaped byte above 127 starts, or was consumed by, a well-formed
    UTF-8 sequence written entirely with escapes. *)
Fixpoint escapes_well_formed (bytes : list (bool * N)) : bool :=
  match bytes with
  | [] => true
  | (false, _) :: rest => escapes_well_formed rest
  | (true, b) :: rest =>
      if (b <? 128)%N then escapes_well_formed rest
      else if between 194 223 b then
        match rest with
        | (true, c1) :: rest' => between 128 191 c1 && escapes_well_formed rest'
        | _ => false
        end
      else if between 224 239 b then
        match rest with
        | (true, c1) :: (true, c2) :: rest' =>
            between (if (b =? 224)%N then 160 else 128)
                    (if (b =? 237)%N then 159 else 191) c1 &&
            between 128 191 c2 && escapes_well_formed rest'
        | _ => false
        end
      else if between 240 244 b then
        match rest with
        | (true, c1) :: (true, c2) :: (true, c3) :: rest' =>
            between (if (b =? 240)%N then 144 else 128)
                    (if (b =? 244)%N then 143 else 191) c1 &&
            between 128 191 c2 && between 128 191 c3 &&
            escapes_well_formed rest'
        | _ => false
        end
      else false
  end.

Fixpoint string_of_bytes (bytes : list (bool * N)) : string :=
  match bytes with
  | [] => EmptyString
  | (_, b) :: rest => String (ascii_of_N b) (string_of_bytes rest)
  end.

(** [decodeURIComponent(s)]; [None] is a [URIError]. *)
Definition decodeURIComponent (s : string) : option string :=
  bytes ← unescape s;
  if escapes_well_formed bytes then Some (string_of_bytes bytes) else None.

(** ** The file system and [send] *)

Inductive entry :=
| File (content : string)
| Directory
| Unreadable.

(** What is on disk, by absolute normalised path; a path that is not bound
    does not exist. *)
Definition filesystem := gmap string entry.

Definition backslash : ascii := ascii_of_nat 92.

Definition is_sep (c : ascii) : bool := Ascii.eqb c "/" || Ascii.eqb c backslash.

(** [s] starts with [..] followed by a separator or by the end. *)
Definition dotdot_here (s : string) : bool :=
  match s with
  | String a (String b rest) =>
      Ascii.eqb a "." && Ascii.eqb b "." &&
      match rest with
      | EmptyString => true
      | String c _ => is_sep c
      end
  | _ => false
  end.

Fixpoint dotdot_after_sep (s : string) : bool :=
  match s with
  | EmptyString => false
  | String c rest => (is_sep c && dotdot_here rest) || dotdot_after_sep rest
  end.

(** [UP_PATH_REGEXP.test(s)] of [send]: [/(?:^|[\\/])\.\.(?:[\\/]|$)/]. *)
Definition up_path (s : string) : bool := dotdot_here s || dotdot_after_sep s.

(** [containsDotFile(parts)] of [send]. *)
Definition contains_dotfile (segments : list string) : bool :=
  existsb (fun seg => (1 <? String.length seg)%nat && starts_with "." seg) segments.

(** [send]'s default treatment of dot files: a path that has one and whose
    last segment starts with a dot is ignored. *)
Definition dotfile_ignored (segments : list string) : bool :=
  contains_dotfile segments &&
  match last segments with
  | Some seg => starts_with "." seg
  | None => false
  end.

Definition has_nul (s : string) : bool := has_char (ascii_of_nat 0) s.

(** Why a file could not be sent: a directory, or an HTTP error of [send]
    with its status. *)
Inductive send_error :=
| EISDIR
| HttpError (code : Z).

(** [s] without its last character. *)
Fixpoint drop_last (s : string) : string :=
  match s with
  | EmptyString => EmptyString
  | String _ EmptyString => EmptyString
  | String c rest => String c (drop_last rest)
  end.

(** What [fs.stat] finds at a path: a path with a trailing slash names a
    directory or nothing. *)
Definition stat (fs : filesystem) (p : string) : option entry :=
  if ends_with_char "/" p && negb (String.eqb p "/") then
    match fs !! drop_last p with
    | Some Directory => Some Directory
    | _ => None
    end
  else fs !! p.

(** Reading the file at an absolute path to stream it. *)
Definition read_file (fs : filesystem) (p : string) : string + send_error :=
  match stat fs p with
  | Some (File content) => inl content
  | Some Directory => inr EISDIR
  | Some Unreadable => inr (HttpError 500)
  | None => inr (HttpError 404)
  end.

(** The outcome of [res.sendFile(p, ...)] for an absolute path [p]: the
    content streamed, or the error given to the callback. *)
Definition sendFile (fs : filesystem) (p : string) : string + send_error :=
  if has_nul p then inr (HttpError 400)
  else if up_path p then inr (HttpError 403)
  else if dotfile_ignored (split_on "/" (normalize p)) then inr (HttpError 404)
  else read_file fs (normalize p).

(** ** Requests *)

Inductive method :=
| GET
| HEAD
| POST
| OPTIONS
| OtherMethod (name : string).

(** A request: its method, the path of its URL (no query string) and its
    body as [express.json()] leaves it. *)
Record request := {
  req_method : method;
  req_path : string;
  req_body : json
}.

(** The machine the server runs on: [__dirname], [process.env], the disk,
    the collaborator, and the text [err.stack] of the error that ends the
    handling of a request with a given status. *)
Record host := {
  dirname : string;
  env : environment;
  fs : filesystem;
  collab : collaborator;
  stack : request -> Z -> string
}.

(** What a middleware or a route handler does with a request: it answers,
    calls [next()] (leaving [res.statusCode] as given), or calls
    [next(err)] with an error of the given status. *)
Inductive outcome :=
| Done (e : effect)
| Next (status_code : Z)
| NextError (code : Z).

(** ** [express.static(__dirname)] *)

(** Redirects and fall-through are the defaults: a directory asked without
    a trailing slash redirects, an error below 500 falls through. *)
Definition static (h : host) (st : state) (req : request) : outcome :=
  match req_method req with
  | GET | HEAD =>
      match decodeURIComponent (req_path req) with
      | None => Next 200
      | Some decoded =>
          if has_nul decoded then Next 200 else
          let rel := if nonempty decoded then normalize ("./" +:+ decoded)
                     else EmptyString in
          if up_path rel then Next 200 else
          if dotfile_ignored (split_on "/" rel) then Next 200 else
          let full := normalize (path_join [dirname h; rel]) in
          if ends_with_char "/" (req_path req) then
            match stat (fs h) (path_join [full; "index.html"]) with
            | Some (File content) =>
                Done (quiet st {| status := 200; body := FileContent content |})
            | Some Unreadable => NextError 500
            | _ => Next 200
            end
          else
            match stat (fs h) full with
            | Some (File content) =>
                Done (quiet st {| status := 200; body := FileContent content |})
            | Some Directory =>
                Done (quiet st {| status := 301; body := Redirect |})
            | Some Unreadable => NextError 500
            | None => Next 200
            end
      end
  | _ => Next 200
  end.

(** ** Routes *)

Definition lower_char (c : ascii) : ascii :=
  let n := N_of_ascii c in
  if between 65 90 n then ascii_of_N (n + 32) else c.

Fixpoint lower (s : string) : string :=
  match s with
  | EmptyString => EmptyString
  | String c rest => String (lower_char c) (lower rest)
  end.

(** What is left of [s] after the prefix [pre], letter case apart. *)
Fixpoint after_prefix (pre s : string) : option string :=
  match pre, s with
  | EmptyString, _ => Some s
  | String _ _, EmptyString => None
  | String a pre', String b s' =>
      if Ascii.eqb (lower_char a) (lower_char b) then after_prefix pre' s' else None
  end.

(** How a route's path pattern answers a request path: no match, a match
    with the decoded parameter, or a parameter that does not decode. *)
Inductive matched :=
| NoMatch
| Matched (param : string)
| BadParam.

(** A fixed path such as ['/blog']: [/^\/blog\/?$/i]. *)
Definition match_exact (pattern path : string) : matched :=
  match after_prefix pattern path with
  | Some rest =>
      if String.eqb rest EmptyString || String.eqb rest "/"
      then Matched EmptyString else NoMatch
  | None => NoMatch
  end.

Definition decode_param (val : string) : matched :=
  match decodeURIComponent val with
  | Some v => Matched v
  | None => BadParam
  end.

(** A path with one parameter such as ['/blog/:slug'], given as its prefix
    ['/blog/']: [/^\/blog\/(?:([^\/]+?))\/?$/i]. *)
Definition match_param (pre path : string) : matched :=
  match after_prefix pre path with
  | Some rest =>
      let seg := if ends_with_char "/" rest then drop_last rest else rest in
      if nonempty seg && negb (has_char "/" seg) then decode_param seg
      else NoMatch
  | None => NoMatch
  end.

(** ['*']: every path matches, and is itself the parameter. *)
Definition match_star (path : string) : matched :=
  if nonempty path then decode_param path else Matched path.

(** ** The GET handlers *)

(** [res.sendFile(p)] without a callback, [res.statusCode] being
    [status_code]: an error goes to [next], a directory to the next route. *)
Definition send_or_next (h : host) (st : state) (status_code : Z) (p : string)
  : outcome :=
  match sendFile (fs h) p with
  | inl content =>
      Done (quiet st {| status := status_code; body := FileContent content |})
  | inr EISDIR => Next status_code
  | inr (HttpError code) => NextError code
  end.

(** [res.sendFile(p, err => { if (err) res.status(404).sendFile(q); })]. *)
Definition send_or_fallback (h : host) (st : state) (status_code : Z)
    (p q : string) : outcome :=
  match sendFile (fs h) p with
  | inl content =>
      Done (quiet st {| status := status_code; body := FileContent content |})
  | inr _ => send_or_next h st 404 q
  end.

Definition service_areas_index (h : host) : string :=
  path_join [dirname h; "garage-door-service-areas-kansas-city"; "index.html"].
Definition blog_index (h : host) : string :=
  path_join [dirname h; "blog"; "index.html"].
Definition root_index (h : host) : string :=
  path_join [dirname h; "index.html"].

(** [app.get('/garage-door-service-areas-kansas-city', ...)]. *)
Definition service_areas (h : host) (st : state) (status_code : Z) : outcome :=
  send_or_next h st status_code (service_areas_index h).

(** [app.get('/blog', ...)]. *)
Definition blog (h : host) (st : state) (status_code : Z) : outcome :=
  send_or_next h st status_code (blog_index h).

(** [app.get('/blog/:slug', ...)]. *)
Definition blog_slug (h : host) (st : state) (status_code : Z) (slug : string)
  : outcome :=
  send_or_fallback h st status_code
    (path_join [dirname h; "blog"; slug; "index.html"]) (blog_index h).

(** [app.get('/services/:slug', ...)]. *)
Definition services_slug (h : host) (st : state) (status_code : Z)
    (slug : string) : outcome :=
  send_or_fallback h st status_code
    (path_join [dirname h; "services"; slug; "index.html"]) (root_index h).

(** [app.get('*', ...)]. *)
Definition fallback (h : host) (st : state) (status_code : Z) : outcome :=
  send_or_next h st status_code (root_index h).

(** ** The application *)

(** A route: the method it was registered with ([GET] for [app.get],
    [POST] for [app.post]), its path pattern and its handler, which gets the
    decoded parameter and the current [res.statusCode]. *)
Record route := {
  route_method : method;
  route_match : string -> matched;
  route_handler : host -> state -> request -> string -> Z -> outcome
}.

(** The routes, in the order [src/server.js] registers them. *)
Definition routes : list route := [
  {| route_method := POST;
     route_match := match_exact "/api/contact";
     route_handler := fun h st req _ _ =>
       Done (contact (env h) (collab h) st (req_body req)) |};
  {| route_method := GET;
     route_match := match_exact "/garage-door-service-areas-kansas-city";
     route_handler := fun h st _ _ code => service_areas h st code |};
  {| route_method := GET;
     route_match := match_exact "/blog";
     route_handler := fun h st _ _ code => blog h st code |};
  {| route_method := GET;
     route_match := match_param "/blog/";
     route_handler := fun h st _ slug code => blog_slug h st code slug |};
  {| route_method := GET;
     route_match := match_param "/services/";
     route_handler := fun h st _ slug code => services_slug h st code slug |};
  {| route_method := GET;
     route_match := match_star;
     route_handler := fun h st _ _ code => fallback h st code |}
].

(** A [GET] route also answers [HEAD]. *)
Definition handles (r : route) (m : method) : bool :=
  match route_method r, m with
  | GET, GET | GET, HEAD | POST, POST => true
  | _, _ => false
  end.

Definition route_options (r : route) : list string :=
  match route_method r with
  | GET => ["GET"; "HEAD"]
  | POST => ["POST"]
  | _ => []
  end.

Definition append_methods (known new : list string) : list string :=
  fold_left (fun acc m => if existsb (String.eqb m) acc then acc else acc ++ [m])
            new known.

(** The application setting [env]: [process.env.NODE_ENV || 'development']. *)
Definition app_env (env : environment) : string :=
  match env !! "NODE_ENV" with
  | Some mode => if nonempty mode then mode else "development"
  | None => "development"
  end.

(** Express's final handler; [err] is the status of the error given to
    [next], if there is one. Without an error it answers 404. With one it
    answers with the error's status and, unless the setting [env] is
    [test], writes the error's stack with [console.error]. *)
Definition final (h : host) (st : state) (req : request) (err : option Z)
  : effect :=
  match err with
  | None => quiet st {| status := 404; body := DefaultPage |}
  | Some code =>
      {| answer := {| status := code; body := DefaultPage |};
         state_after := st;
         logged := if String.eqb (app_env (env h)) "test" then []
                   else [(stack h req code, None)];
         sent := [] |}
  end.

(** The router over the routes left. A parameter that does not decode is
    an error no later route recovers from; an [OPTIONS] request collects
    the methods of the routes its path matches and is answered with them
    when no route is left. *)
Fixpoint dispatch (h : host) (st : state) (req : request) (rs : list route)
    (status_code : Z) (options : list string) : effect :=
  match rs with
  | [] =>
      match req_method req, options with
      | OPTIONS, _ :: _ => quiet st {| status := status_code; body := Allow options |}
      | _, _ => final h st req None
      end
  | r :: rest =>
      match route_match r (req_path req) with
      | NoMatch => dispatch h st req rest status_code options
      | BadParam => final h st req (Some 400)
      | Matched param =>
          if handles r (req_method req) then
            match route_handler r h st req param status_code with
            | Done e => e
            | Next status_code' => dispatch h st req rest status_code' options
            | NextError code => final h st req (Some code)
            end
          else
            dispatch h st req rest status_code
              (match req_method req with
               | OPTIONS => append_methods options (route_options r)
               | _ => options
               end)
      end
  end.

(** The server: [express.json()] has parsed the body, [express.static]
    comes first, then the routes. *)
Definition app (h : host) (st : state) (req : request) : effect :=
  match static h st req with
  | Done e => e
  | Next status_code => dispatch h st req routes status_code []
  | NextError code => final h st req (Some code)
  end.

(** ** Counting and excluding occurrences *)

(** How many times [c] occurs in [s]. *)
Fixpoint count_char (c : ascii) (s : string) : nat :=
  match s with
  | EmptyString => 0%nat
  | String x s' => ((if Ascii.eqb x c then 1 else 0) + count_char c s')%nat
  end.

(** [p] and [t] differ at a position both have: whatever follows [t], [p]
    is not a prefix of it. *)
Fixpoint mismatch (p t : string) : bool :=
  match p, t with
  | String a p', String b t' => if Ascii.eqb a b then mismatch p' t' else true
  | _, _ => false
  end.

(** No occurrence of [p] can start inside [l], whatever follows [l]. *)
Fixpoint never_starts (p l : string) : bool :=
  match l with
  | EmptyString => true
  | String _ l' => mismatch p l && never_starts p l'
  end.

(** The opening of a [mailto:] link, as the template writes it. *)
Definition mailto_open : string := "<a href=" +:+ dq +:+ "mailto:".

(** The [html] of a message whose email cell is the em-dash. *)
Definition html_without_email (n p m : string) : string :=
  html_head +:+ n +:+ html_phone_row +:+ p +:+ (dq +:+ ">") +:+ p +:+
  html_email_row +:+ em_dash +:+ html_message_row +:+ m +:+ html_foot.

(** The [html] of a message whose email cell is a link to [e]. *)
Definition html_with_email (n p e m : string) : string :=
  html_head +:+ n +:+ html_phone_row +:+ p +:+ (dq +:+ ">") +:+ p +:+
  html_email_row +:+
  mailto_open +:+ e +:+ (dq +:+ ">") +:+ e +:+ "</a>" +:+
  html_message_row +:+ m +:+ html_foot.

(** The message [build_email] returns, given the sanitised texts. *)
Definition mail_of (env : environment) (email : value) (n p e m : string)
  : outbound_email :=
  {| from := env_or env "FROM_EMAIL" default_from;
     to := [env_or env "TO_EMAIL" default_to];
     replyTo := if truthy email then email else None;
     subject := "New Quote Request from " +:+ n;
     html := render (html_parts email n p p e e m) |}.

(** The required fields of a body are all truthy. *)
Definition complete (req_body : json) : bool :=
  truthy (get_prop (Some req_body) "name") &&
  truthy (get_prop (Some req_body) "phone") &&
  truthy (get_prop (Some req_body) "message").

(** A field that is missing or empty. *)
Definition missing_or_empty (v : value) : Prop :=
  v = None \/ v = Some (JStr EmptyString).

(** How the [try] block of the contact handler fails: [getResend()]
    throws, building the argument of [send] throws, or the promise [send]
    returned is rejected. It gives the value caught, the state left and the
    calls made to the collaborator. *)
Inductive send_fails (env : environment) (collab : collaborator) (st : state)
    (req_body : json)
  : thrown -> state -> list (client * outbound_email) -> Prop :=
| fails_no_client err st' :
    getResend env st = (Throw err, st') ->
    send_fails env collab st req_body err st' []
| fails_not_built c st' err :
    getResend env st = (Ok c, st') ->
    build_email env (get_prop (Some req_body) "name")
      (get_prop (Some req_body) "phone") (get_prop (Some req_body) "email")
      (get_prop (Some req_body) "message") = Throw err ->
    send_fails env collab st req_body err st' []
| fails_rejected c st' mail err :
    getResend env st = (Ok c, st') ->
    build_email env (get_prop (Some req_body) "name")
      (get_prop (Some req_body) "phone") (get_prop (Some req_body) "email")
      (get_prop (Some req_body) "message") = Ok mail ->
    collab c mail = Rejected err ->
    send_fails env collab st req_body err st' [(c, mail)].

(** The request reaches the [try] block of the contact handler: a [POST]
    to the contact route with a complete body. *)
Definition attempts_send (req : request) : bool :=
  match req_method req, match_exact "/api/contact" (req_path req) with
  | POST, Matched _ => complete (req_body req)
  | _, _ => false
  end.

(** A handler that changes no state, logs nothing and sends nothing, and
    whose answer is not the contact handler's 500. *)
Definition quiet_outcome (st : state) (o : outcome) : Prop :=
  match o with
  | Done e => exists r, e = quiet st r /\ r <> send_failed
  | _ => True
  end.

(** What handling a request that sends no message comes to: an answer that
    is not the handler's 500, with no state change, log line or message; or
    the final handler's answer to an error. *)
Definition passive (h : host) (st : state) (req : request) (e : effect) : Prop :=
  (exists r, e = quiet st r /\ r <> send_failed) \/
  (exists code, e = final h st req (Some code)).

(** Some route's parameter does not decode in the path. *)
Definition bad_param (path : string) : bool :=
  existsb (fun r => match route_match r path with
                    | BadParam => true
                    | _ => false
                    end) routes.

(** ** A sample site and sample requests *)

Module Sample.

Definition disk : filesystem :=
  list_to_map [
    ("/srv/site", Directory);
    ("/srv/site/index.html", File "<h1>Nate's Door Service</h1>");
    ("/srv/site/blog", Directory);
    ("/srv/site/blog/index.html", File "<h1>Blog</h1>");
    ("/srv/site/blog/springs", Directory);
    ("/srv/site/blog/springs/index.html", File "<h1>Springs</h1>")
  ].

Definition acknowledge : collaborator := fun _ _ => Resolved.

(** A runtime whose stacks are their first line. *)
Definition trace (req : request) (code : Z) : string :=
  if (code =? 400)%Z then "URIError: Failed to decode param"
  else if (code =? 404)%Z then "Error: ENOENT: no such file or directory"
  else "Error".

(** No credential in the environment. *)
Definition demo : host :=
  {| dirname := "/srv/site"; env := ∅; fs := disk; collab := acknowledge;
     stack := trace |}.

Definition key : environment := {[ "RESEND_API_KEY" := "re_123" ]}.

Definition live : host :=
  {| dirname := "/srv/site"; env := key; fs := disk; collab := acknowledge;
     stack := trace |}.


(** The same, run with [NODE_ENV=test]. *)
Definition bare_test : host :=
  {| dirname := "/srv/site"; env := {[ "NODE_ENV" := "test" ]}; fs := ∅;
     collab := acknowledge; stack := trace |}.

Definition put (p : string) : request :=
  {| req_method := OtherMethod "PUT"; req_path := p; req_body := JObj [] |}.

Definition get (p : string) : request :=
  {| req_method := GET; req_path := p; req_body := JObj [] |}.

Definition post (p : string) (b : json) : request :=
  {| req_method := POST; req_path := p; req_body := b |}.

Definition jane : json :=
  JObj [("name", JStr "Jane Doe"); ("phone", JStr "555-1234");
        ("email", JStr "jane@example.com");
        ("message", JStr "Need a spring fixed")].

Definition no_email : json :=
  JObj [("name", JStr "Jane Doe"); ("phone", JStr "555-1234");
        ("message", JStr "Need a spring fixed")].


Definition no_phone : json :=
  JObj [("name", JStr "Jane Doe"); ("message", JStr "Need a spring fixed")].

Definition script : json :=
  JObj [("name", JStr "<script>alert(1)</script>"); ("phone", JStr "555-1234");
        ("message", JStr "hello")].

End Sample.

(** The opening of a table cell with the given style, and of a [tel:]
    link, as the template writes them. *)
Definition cell_open (style : string) : string :=
  "<td " +:+ attr "style" style +:+ ">".
Definition tel_open : string := "<a href=" +:+ dq +:+ "tel:".

(** ** Start-up

    [const PORT = process.env.PORT ?? 3000; app.listen(PORT, () => { ... })] *)

(** [PORT], as a template literal writes it. *)
Definition PORT (env : environment) : string := env_or env "PORT" "3000".

(** What the callback of [app.listen] does: the port that was given to
    [app.listen], the line written with [console.log] and the command given
    to [exec]. *)
Record startup := {
  listened : string;
  announced : string;
  executed : string
}.

(** The number a string of decimal digits writes. *)
Definition digit (c : ascii) : option Z :=
  let n := Z.of_nat (nat_of_ascii c) in
  if (48 <=? n) && (n <=? 57) then Some (n - 48) else None.

Fixpoint decimal (acc : Z) (s : string) : option Z :=
  match s with
  | EmptyString => Some acc
  | String c rest =>
      match digit c with
      | Some d => decimal (10 * acc + d) rest
      | None => None
      end
  end.

(** The ports Node's [validatePort] is known to refuse with
    [ERR_SOCKET_BAD_PORT]: the empty string, and decimal digits that write
    a number above 65535. What Node makes of any other string that is not
    all decimal digits (a number in another notation, a pipe name) is not
    modelled here. *)
Definition bad_port (port : string) : bool :=
  match port with
  | EmptyString => true
  | _ => match decimal 0 port with
         | Some n => 65535 <? n
         | None => false
         end
  end.

(** How [app.listen(PORT, ...)] ends for a port that is not known to be
    refused, which Node and the system decide: the port is refused (Node
    throws, or the port is in use or not permitted) and the callback never
    runs, or the server listens and the callback runs. *)
Inductive listening :=
| Refused
| Listens.

(** The start of the server on [process.platform = platform]: what the
    callback does, if it runs. *)
Definition listen (env : environment) (platform : string) (outcome : listening)
  : option startup :=
  if bad_port (PORT env) then None
  else
    match outcome with
    | Refused => None
    | Listens =>
        let url := "http://localhost:" +:+ PORT env in
        Some {| listened := PORT env;
                announced :=
                  nl +:+ "🚀  Nate's Door Service is running at " +:+ url +:+ nl;
                executed :=
                  if String.eqb platform "darwin" then "open " +:+ url
                  else if String.eqb platform "win32" then "start " +:+ url
                  else "xdg-open " +:+ url |}
    end.

(** ** Outcomes that are errors *)



(** ** A second sample site *)

Module Elsewhere.

Definition disk : filesystem :=
  list_to_map [
    ("/srv/site", Directory);
    ("/srv/site/index.html", File "<h1>Nate's Door Service</h1>");
    ("/srv/site/server.js", File "require('dotenv').config();");
    ("/srv/site/blog", Directory);
    ("/srv/site/blog/index.html", File "<h1>Blog</h1>");
    ("/srv/site/blog/springs", Directory);
    ("/srv/site/blog/springs/index.html", File "<h1>Springs</h1>");
    ("/srv/site/services", Directory);
    ("/srv/site/services/openers", Directory);
    ("/srv/site/services/openers/index.html", File "<h1>Openers</h1>");
    ("/srv/site/garage-door-service-areas-kansas-city", Directory);
    ("/srv/site/garage-door-service-areas-kansas-city/index.html",
     File "<h1>Service areas</h1>");
    ("/srv/secret", Directory);
    ("/srv/secret/index.html", File "not for the public")
  ].

Definition site : host :=
  {| dirname := "/srv/site"; env := Sample.key; fs := disk;
     collab := Sample.acknowledge; stack := Sample.trace |}.

Definition stored : state := {| resend := Some {| api_key := "re_old" |} |}.

End Elsewhere.

(** * Properties *)

(** ** Strings *)

Section StringFacts.

Lemma append_cons (c : ascii) (a b : string) :
  String c a +:+ b = String c (a +:+ b).
Proof. reflexivity. Qed.

Lemma append_empty_l (s : string) : EmptyString +:+ s = s.
Proof. reflexivity. Qed.

Lemma append_empty_r (s : string) : s +:+ EmptyString = s.
Proof.
  induction s as [|c s IH]; [reflexivity |].
  rewrite append_cons. now f_equal.
Qed.

Lemma append_assoc (a b c : string) : (a +:+ b) +:+ c = a +:+ b +:+ c.
Proof.
  induction a as [|x a IH]; [reflexivity |].
  rewrite !append_cons. now f_equal.
Qed.

Lemma has_char_app (c : ascii) (a b : string) :
  has_char c (a +:+ b) = has_char c a || has_char c b.
Proof.
  induction a as [|x a IH]; [reflexivity |].
  rewrite append_cons. simpl. rewrite IH. now rewrite orb_assoc.
Qed.

Lemma count_char_app (c : ascii) (a b : string) :
  count_char c (a +:+ b) = (count_char c a + count_char c b)%nat.
Proof.
  induction a as [|x a IH]; [reflexivity |].
  rewrite append_cons. simpl. rewrite IH. lia.
Qed.


Lemma starts_with_refl_app (p s : string) : starts_with p (p +:+ s) = true.
Proof.
  induction p as [|x p IH]; [reflexivity |].
  rewrite append_cons. simpl. now rewrite Ascii.eqb_refl.
Qed.

Lemma starts_with_app_l (p a b : string) :
  starts_with p a = true -> starts_with p (a +:+ b) = true.
Proof.
  revert a. induction p as [|y p IH]; intros a; [reflexivity |].
  destruct a as [|x a]; [discriminate |].
  rewrite append_cons. simpl.
  intros [Hxy Hp]%andb_true_iff. rewrite Hxy. now apply IH.
Qed.

Lemma includes_app_l (p a b : string) :
  includes p a = true -> includes p (a +:+ b) = true.
Proof.
  induction a as [|x a IH].
  - destruct p; [now destruct b | discriminate].
  - rewrite append_cons. simpl.
    intros [H | H]%orb_true_iff; apply orb_true_iff.
    + left. now apply (starts_with_app_l p (String x a) b).
    + right. now apply IH.
Qed.

Lemma includes_app_r (p a b : string) :
  includes p b = true -> includes p (a +:+ b) = true.
Proof.
  intros H. induction a as [|x a IH]; [exact H |].
  rewrite append_cons. simpl. rewrite IH. apply orb_true_r.
Qed.



Lemma mismatch_not_prefix (p t u : string) :
  mismatch p t = true -> starts_with p (t +:+ u) = false.
Proof.
  revert t. induction p as [|a p IH]; intros [|b t]; simpl; try discriminate.
  rewrite ?append_cons. simpl.
  destruct (Ascii.eqb a b); simpl; [apply IH | reflexivity].
Qed.

Lemma never_starts_skip (p l u : string) :
  never_starts p l = true -> includes p (l +:+ u) = includes p u.
Proof.
  induction l as [|x l IH]; [reflexivity |].
  intros [Hm Hl]%andb_true_iff.
  rewrite append_cons.
  change (includes p (String x (l +:+ u)))
    with (starts_with p (String x (l +:+ u)) || includes p (l +:+ u)).
  rewrite <- append_cons, (mismatch_not_prefix _ _ _ Hm). simpl. now apply IH.
Qed.

Lemma never_starts_absent (c : ascii) (p s : string) :
  has_char c s = false -> never_starts (String c p) s = true.
Proof.
  induction s as [|x s IH]; simpl; [reflexivity |].
  intros [Hx Hs]%orb_false_iff.
  rewrite Ascii.eqb_sym, Hx. simpl. now apply IH.
Qed.

End StringFacts.

(** ** The sanitiser *)

Section Sanitiser.

Lemma replace_char_removes (c : ascii) (rep s : string) :
  has_char c rep = false -> has_char c (replace_char c rep s) = false.
Proof.
  intros Hrep. induction s as [|x s IH]; simpl; [reflexivity |].
  destruct (Ascii.eqb x c) eqn:E.
  - now rewrite has_char_app, Hrep, IH.
  - simpl. now rewrite E, IH.
Qed.

Lemma replace_char_keeps_absent (c d : ascii) (rep s : string) :
  has_char c rep = false -> has_char c s = false ->
  has_char c (replace_char d rep s) = false.
Proof.
  intros Hrep. induction s as [|x s IH]; simpl; [reflexivity |].
  intros [Hx Hs]%orb_false_iff.
  destruct (Ascii.eqb x d).
  - now rewrite has_char_app, Hrep, IH.
  - simpl. now rewrite Hx, IH.
Qed.

Lemma replace_char_absent (c : ascii) (rep s : string) :
  has_char c s = false -> replace_char c rep s = s.
Proof.
  induction s as [|x s IH]; simpl; [reflexivity |].
  intros [Hx Hs]%orb_false_iff. rewrite Hx. now rewrite IH.
Qed.

Lemma escape_no_lt (s : string) : has_char "<" (escape s) = false.
Proof.
  unfold escape. apply replace_char_keeps_absent; [reflexivity |].
  now apply replace_char_removes.
Qed.

Lemma escape_no_gt (s : string) : has_char ">" (escape s) = false.
Proof. unfold escape. now apply replace_char_removes. Qed.

Lemma escape_clean (s : string) :
  has_char "<" s = false -> has_char ">" s = false -> escape s = s.
Proof.
  intros Hlt Hgt. unfold escape.
  rewrite (replace_char_absent "<" _ s Hlt).
  now apply replace_char_absent.
Qed.

Lemma safe_string (s : string) : safe (Some (JStr s)) = Ok (escape s).
Proof. reflexivity. Qed.

(** What [safe] returns is always an [escape]d text. *)
Lemma safe_escaped (v : value) (t : string) :
  safe v = Ok t -> exists raw, t = escape raw.
Proof.
  unfold safe.
  destruct (match nullish_or v (Some (JStr EmptyString)) with
            | Some v0 => to_string v0
            | None => Ok "undefined"
            end) as [raw | e]; simpl; [| discriminate].
  intros [= <-]. now exists raw.
Qed.

Lemma safe_no_lt (v : value) (t : string) :
  safe v = Ok t -> has_char "<" t = false.
Proof. intros [raw ->]%safe_escaped. apply escape_no_lt. Qed.

Lemma safe_no_gt (v : value) (t : string) :
  safe v = Ok t -> has_char ">" t = false.
Proof. intros [raw ->]%safe_escaped. apply escape_no_gt. Qed.

(** Sanitising what [safe] returned changes nothing, whatever value it was
    returned for. *)
Lemma safe_again (v : value) (t : string) :
  safe v = Ok t -> safe (Some (JStr t)) = Ok t.
Proof.
  intros [raw ->]%safe_escaped. rewrite safe_string. f_equal.
  apply escape_clean; [apply escape_no_lt | apply escape_no_gt].
Qed.

(** C10. The sanitiser is idempotent: for every string [s],
    [safe(safe(s))] is [safe(s)], and what [safe] returns contains
    neither [<] nor [>]. *)
Theorem safe_idempotent (s : string) :
  (t ← safe (Some (JStr s)); safe (Some (JStr t))) = safe (Some (JStr s)) /\
  escape (escape s) = escape s /\
  has_char "<" (escape s) = false /\
  has_char ">" (escape s) = false.
Proof.
  pose proof (escape_no_lt s) as Hlt.
  pose proof (escape_no_gt s) as Hgt.
  pose proof (escape_clean _ Hlt Hgt) as Hid.
  repeat split; try assumption.
  rewrite safe_string. simpl. rewrite safe_string. now rewrite Hid.
Qed.

End Sanitiser.

(** ** The outbound email *)

Section Email.

Lemma render_cons (p : part) (ps : list part) :
  render (p :: ps) = part_text p +:+ render ps.
Proof. reflexivity. Qed.

(** A pattern that can start in no part is not in the rendering. *)
Lemma render_excludes (p : string) (ps : list part) :
  nonempty p = true ->
  Forall (fun q => never_starts p (part_text q) = true) ps ->
  includes p (render ps) = false.
Proof.
  intros Hp. induction 1 as [|q ps Hq _ IH].
  - destruct p; [discriminate | reflexivity].
  - rewrite render_cons, never_starts_skip by exact Hq. exact IH.
Qed.



Lemma render_app (ps qs : list part) :
  render (ps ++ qs) = render ps +:+ render qs.
Proof.
  induction ps as [|p ps IH]; [reflexivity |].
  rewrite <- app_comm_cons, !render_cons, IH. now rewrite append_assoc.
Qed.

Lemma render_nil : render [] = EmptyString.
Proof. reflexivity. Qed.

Lemma render_without_email (email : value) (n p e1 e2 m : string) :
  truthy email = false ->
  render (html_parts email n p p e1 e2 m) = html_without_email n p m.
Proof.
  intros H. unfold html_parts, email_cell, html_without_email. rewrite H.
  rewrite !render_app, !render_cons, render_nil. cbn [part_text].
  now rewrite !append_assoc, !append_empty_r.
Qed.

Lemma render_with_email (email : value) (n p e m : string) :
  truthy email = true ->
  render (html_parts email n p p e e m) = html_with_email n p e m.
Proof.
  intros H. unfold html_parts, email_cell, html_with_email. rewrite H.
  rewrite !render_app, !render_cons, render_nil. cbn [part_text].
  now rewrite !append_assoc, !append_empty_r.
Qed.





End Email.

(** ** POST /api/contact *)

Section Contact.

Lemma bind_ok {A B} (m : result A) (k : A -> result B) (b : B) :
  (m ≫= k) = Ok b -> exists a, m = Ok a /\ k a = Ok b.
Proof. destruct m as [a | e]; [eauto | discriminate]. Qed.

Lemma Ok_inj {A} (a b : A) : Ok a = Ok b -> a = b.
Proof. now intros [= ->]. Qed.

Lemma build_email_ok env name phone email message mail :
  build_email env name phone email message = Ok mail ->
  exists n p e m,
    safe name = Ok n /\ safe phone = Ok p /\ safe message = Ok m /\
    (if truthy email then safe email = Ok e else e = EmptyString) /\
    mail = mail_of env email n p e m.
Proof.
  unfold build_email. cbv zeta.
  intros (subj & Hsubj & H)%bind_ok.
  apply bind_ok in H as (n & Hn & H).
  apply bind_ok in H as (p1 & Hp1 & H).
  apply bind_ok in H as (p2 & Hp2 & H).
  apply bind_ok in H as ([e1 e2] & He & H).
  apply bind_ok in H as (m & Hm & H).
  apply Ok_inj in H. subst mail.
  assert (subj = n) as -> by congruence.
  assert (p2 = p1) as -> by congruence.
  assert (e2 = e1 /\
          (if truthy email then safe email = Ok e1 else e1 = EmptyString))
    as [-> He1].
  { destruct (truthy email).
    - apply bind_ok in He as (a & Ha & He).
      apply bind_ok in He as (b & Hb & He).
      apply Ok_inj in He. split; congruence.
    - apply Ok_inj in He. split; congruence. }
  now exists n, p1, e1, m.
Qed.

Lemma contact_incomplete env collab st req_body :
  complete req_body = false ->
  contact env collab st req_body = quiet st validation_failed.
Proof.
  unfold complete, contact. intros H.
  destruct (truthy (get_prop (Some req_body) "name"));
    destruct (truthy (get_prop (Some req_body) "phone"));
    destruct (truthy (get_prop (Some req_body) "message"));
    try discriminate H; reflexivity.
Qed.

Lemma complete_passes req_body :
  complete req_body = true ->
  negb (truthy (get_prop (Some req_body) "name"))
  || negb (truthy (get_prop (Some req_body) "phone"))
  || negb (truthy (get_prop (Some req_body) "message")) = false.
Proof.
  unfold complete.
  intros [[-> ->]%andb_true_iff ->]%andb_true_iff. reflexivity.
Qed.

Lemma contact_no_client env collab st st' req_body err :
  complete req_body = true ->
  getResend env st = (Throw err, st') ->
  contact env collab st req_body = caught st' err [].
Proof.
  intros Hc Hg. unfold contact.
  rewrite (complete_passes _ Hc), Hg. reflexivity.
Qed.

Lemma contact_build_throws env collab st st' req_body c err :
  complete req_body = true ->
  getResend env st = (Ok c, st') ->
  build_email env (get_prop (Some req_body) "name")
    (get_prop (Some req_body) "phone") (get_prop (Some req_body) "email")
    (get_prop (Some req_body) "message") = Throw err ->
  contact env collab st req_body = caught st' err [].
Proof.
  intros Hc Hg Hb. unfold contact.
  rewrite (complete_passes _ Hc), Hg. cbn [mbind result_bind].
  rewrite Hb. reflexivity.
Qed.

Lemma contact_settled env collab st st' req_body c mail :
  complete req_body = true ->
  getResend env st = (Ok c, st') ->
  build_email env (get_prop (Some req_body) "name")
    (get_prop (Some req_body) "phone") (get_prop (Some req_body) "email")
    (get_prop (Some req_body) "message") = Ok mail ->
  contact env collab st req_body =
  match collab c mail with
  | Resolved =>
      {| answer := send_succeeded; state_after := st';
         logged := []; sent := [(c, mail)] |}
  | Rejected err => caught st' err [(c, mail)]
  end.
Proof.
  intros Hc Hg Hb. unfold contact.
  rewrite (complete_passes _ Hc), Hg. cbn [mbind result_bind].
  rewrite Hb. reflexivity.
Qed.

(** A message reaches the collaborator only from a complete submission,
    with the client [getResend] returned, and is what [build_email]
    built. *)
Lemma contact_sent env collab st req_body c mail :
  (c, mail) ∈ sent (contact env collab st req_body) ->
  complete req_body = true /\
  (exists st', getResend env st = (Ok c, st')) /\
  build_email env (get_prop (Some req_body) "name")
    (get_prop (Some req_body) "phone") (get_prop (Some req_body) "email")
    (get_prop (Some req_body) "message") = Ok mail.
Proof.
  destruct (complete req_body) eqn:Hc.
  2: { rewrite contact_incomplete by exact Hc. intros []%elem_of_nil. }
  destruct (getResend env st) as [[c' | err] st'] eqn:Hg.
  2: { rewrite (contact_no_client _ _ _ _ _ _ Hc Hg). intros []%elem_of_nil. }
  destruct (build_email env (get_prop (Some req_body) "name")
    (get_prop (Some req_body) "phone") (get_prop (Some req_body) "email")
    (get_prop (Some req_body) "message")) as [mail' | err] eqn:Hb.
  2: { rewrite (contact_build_throws _ _ _ _ _ _ _ Hc Hg Hb).
       intros []%elem_of_nil. }
  rewrite (contact_settled _ _ _ _ _ _ _ Hc Hg Hb).
  intros Hin.
  assert ((c, mail) = (c', mail')) as [= -> ->].
  { destruct (collab c' mail'); cbn [sent caught] in Hin;
      now apply list_elem_of_singleton in Hin. }
  eauto.
Qed.



Lemma mailto_excluded (email : value) (n p e m : string) :
  truthy email = false ->
  has_char "<" n = false -> has_char "<" p = false ->
  has_char "<" m = false ->
  includes mailto_open (render (html_parts email n p p e e m)) = false.
Proof.
  intros Ht Hn Hp Hm.
  apply (render_excludes mailto_open); [reflexivity |].
  unfold html_parts, email_cell. rewrite Ht.
  repeat (apply Forall_app; split); repeat constructor; cbn [part_text];
    try (vm_compute; reflexivity);
    now apply (never_starts_absent "<").
Qed.

(** What the collaborator gets when [email] is falsy. *)
Lemma sent_without_email env collab st req_body c mail :
  (c, mail) ∈ sent (contact env collab st req_body) ->
  truthy (get_prop (Some req_body) "email") = false ->
  replyTo mail = None /\
  (exists n p m, html mail = html_without_email n p m) /\
  includes mailto_open (html mail) = false.
Proof.
  intros (_ & _ & Hb)%contact_sent Ht.
  apply build_email_ok in Hb as (n & p & e & m & Hn & Hp & Hm & He & ->).
  cbn [html replyTo mail_of]. rewrite Ht. repeat split.
  - exists n, p, m. now apply render_without_email.
  - apply mailto_excluded; eauto using safe_no_lt.
Qed.

(** What the collaborator gets when [email] is truthy. *)
Lemma sent_with_email env collab st req_body c mail :
  (c, mail) ∈ sent (contact env collab st req_body) ->
  truthy (get_prop (Some req_body) "email") = true ->
  replyTo mail = get_prop (Some req_body) "email" /\
  exists n p e m,
    safe (get_prop (Some req_body) "email") = Ok e /\
    html mail = html_with_email n p e m.
Proof.
  intros (_ & _ & Hb)%contact_sent Ht.
  apply build_email_ok in Hb as (n & p & e & m & Hn & Hp & Hm & He & ->).
  cbn [html replyTo mail_of]. rewrite Ht in *. split; [reflexivity |].
  exists n, p, e, m. split; [assumption |]. now apply render_with_email.
Qed.

(** C8. For a message sent for a submission without [email], the email
    cell of the body is the em-dash, the body has no [mailto:] link and
    [replyTo] is [undefined]; for a submission whose [email] is a
    non-empty string, [replyTo] is that string as it came, and the body
    links to its sanitised text. *)
Theorem email_omitted_or_supplied env collab st req_body c mail :
  (c, mail) ∈ sent (contact env collab st req_body) ->
  (get_prop (Some req_body) "email" = None ->
     replyTo mail = None /\
     (exists n p m, html mail = html_without_email n p m) /\
     includes mailto_open (html mail) = false) /\
  (forall s, get_prop (Some req_body) "email" = Some (JStr s) ->
     s <> EmptyString ->
     replyTo mail = Some (JStr s) /\
     exists n p m, html mail = html_with_email n p (escape s) m).
Proof.
  intros Hin. split.
  - intros He. apply (sent_without_email _ _ _ _ _ _ Hin). now rewrite He.
  - intros s He Hs.
    destruct (sent_with_email _ _ _ _ _ _ Hin) as (Hr & n & p & e & m & Hsafe & Hh).
    { rewrite He. now destruct s. }
    rewrite He in Hr, Hsafe. rewrite safe_string in Hsafe.
    apply Ok_inj in Hsafe. subst e. eauto.
Qed.



(** C5. For Jane Doe's submission, with a client at hand and a
    collaborator that acknowledges the message, the collaborator is
    called once, with the subject [New Quote Request from Jane Doe] and a
    body that holds the phone number, a link to the email address and the
    message; the handler answers 200 with [{success: true}]. *)
Theorem jane_doe_request env collab st c st' :
  getResend env st = (Ok c, st') ->
  collab c (mail_of env (Some (JStr "jane@example.com")) "Jane Doe"
              "555-1234" "jane@example.com" "Need a spring fixed") = Resolved ->
  exists mail,
    contact env collab st Sample.jane =
      {| answer := {| status := 200;
                      body := Json (JObj [("success", JBool true)]) |};
         state_after := st'; logged := []; sent := [(c, mail)] |} /\
    subject mail = "New Quote Request from Jane Doe" /\
    includes "555-1234" (html mail) = true /\
    includes (mailto_open +:+ "jane@example.com" +:+ dq +:+ ">") (html mail) = true /\
    includes "Need a spring fixed" (html mail) = true.
Proof.
  intros Hg Hack. eexists. split.
  - rewrite (contact_settled env collab st st' Sample.jane c
               (mail_of env (Some (JStr "jane@example.com")) "Jane Doe"
                  "555-1234" "jane@example.com" "Need a spring fixed"));
      [now rewrite Hack | reflexivity | exact Hg | reflexivity].
  - cbn [subject html mail_of]. repeat split; vm_compute; reflexivity.
Qed.

(** Any failure of the [try] block ends in the [catch] block. *)
Lemma contact_failing env collab st req_body err st' calls :
  complete req_body = true ->
  send_fails env collab st req_body err st' calls ->
  contact env collab st req_body = caught st' err calls.
Proof.
  intros Hc [e s Hg | k s e Hg Hb | k s mail e Hg Hb Hr].
  - now rewrite (contact_no_client _ _ _ _ _ _ Hc Hg).
  - now rewrite (contact_build_throws _ _ _ _ _ _ _ Hc Hg Hb).
  - now rewrite (contact_settled _ _ _ _ _ _ _ Hc Hg Hb), Hr.
Qed.


(** The handler always answers, with one of its three responses. *)
Lemma contact_answers env collab st req_body :
  answer (contact env collab st req_body) = validation_failed \/
  answer (contact env collab st req_body) = send_succeeded \/
  answer (contact env collab st req_body) = send_failed.
Proof.
  destruct (complete req_body) eqn:Hc.
  2: { left. now rewrite contact_incomplete. }
  right.
  destruct (getResend env st) as [[c | err] st'] eqn:Hg.
  2: { right. now rewrite (contact_no_client _ _ _ _ _ _ Hc Hg). }
  destruct (build_email env (get_prop (Some req_body) "name")
    (get_prop (Some req_body) "phone") (get_prop (Some req_body) "email")
    (get_prop (Some req_body) "message")) as [mail | err] eqn:Hb.
  2: { right. now rewrite (contact_build_throws _ _ _ _ _ _ _ Hc Hg Hb). }
  rewrite (contact_settled _ _ _ _ _ _ _ Hc Hg Hb).
  destruct (collab c mail); [now left | now right].
Qed.

End Contact.

(** ** The router *)

Section Router.

Lemma static_post h st req :
  req_method req = POST -> static h st req = Next 200.
Proof. intros H. unfold static. now rewrite H. Qed.

Lemma match_exact_not_bad pattern path : match_exact pattern path <> BadParam.
Proof.
  unfold match_exact. destruct (after_prefix pattern path); [| discriminate].
  now destruct (_ || _).
Qed.

(** A [POST] to the contact route is answered by the contact handler. *)
Lemma app_contact h st req :
  req_method req = POST ->
  match_exact "/api/contact" (req_path req) = Matched EmptyString ->
  app h st req = contact (env h) (collab h) st (req_body req).
Proof.
  intros Hm Hp. unfold app. rewrite (static_post _ _ _ Hm).
  unfold routes. cbn [dispatch route_match]. rewrite Hp.
  unfold handles. cbn [route_method]. rewrite Hm. reflexivity.
Qed.

(** C3. A [POST] to the contact route whose [name], [phone] or [message]
    is missing or empty is answered 400 with the fixed validation
    message, and nothing is handed to the collaborator. *)
Theorem incomplete_submission_rejected h st req :
  req_method req = POST ->
  match_exact "/api/contact" (req_path req) = Matched EmptyString ->
  missing_or_empty (get_prop (Some (req_body req)) "name") \/
  missing_or_empty (get_prop (Some (req_body req)) "phone") \/
  missing_or_empty (get_prop (Some (req_body req)) "message") ->
  answer (app h st req) =
    {| status := 400;
       body := Json (JObj [("error",
                 JStr "Please fill in all required fields.")]) |} /\
  sent (app h st req) = [] /\
  logged (app h st req) = [] /\
  state_after (app h st req) = st.
Proof.
  intros Hm Hp Hmiss. rewrite (app_contact _ _ _ Hm Hp).
  rewrite contact_incomplete; [repeat split |].
  unfold complete, missing_or_empty in *.
  destruct Hmiss as [[-> | ->] | [[-> | ->] | [-> | ->]]]; cbn [truthy nonempty];
    rewrite ?andb_false_r; reflexivity.
Qed.

Lemma after_prefix_cons a pre s rest :
  after_prefix (String a pre) s = Some rest ->
  exists b s', s = String b s' /\ lower_char a = lower_char b /\
               after_prefix pre s' = Some rest.
Proof.
  destruct s as [|b s']; [discriminate |]. simpl.
  destruct (Ascii.eqb_spec (lower_char a) (lower_char b)); [| discriminate].
  eauto.
Qed.

Lemma lower_char_slash c : lower_char "/" = lower_char c -> c = "/"%char.
Proof.
  destruct c as [[] [] [] [] [] [] [] []]; vm_compute; congruence.
Qed.

(** A path of the form [/blog/{slug}] matches neither of the two fixed
    GET routes registered before [/blog/:slug]. *)
Lemma blog_slug_path path slug :
  match_param "/blog/" path = Matched slug ->
  match_exact "/garage-door-service-areas-kansas-city" path = NoMatch /\
  match_exact "/blog" path = NoMatch.
Proof.
  unfold match_param.
  destruct (after_prefix "/blog/" path) as [rest |] eqn:Hpre; [| discriminate].
  intros Hseg.
  assert (rest <> EmptyString) as Hrest.
  { intros ->. discriminate Hseg. }
  apply after_prefix_cons in Hpre as (c0 & s0 & -> & H0 & Hpre).
  apply after_prefix_cons in Hpre as (c1 & s1 & -> & H1 & Hpre).
  apply after_prefix_cons in Hpre as (c2 & s2 & -> & H2 & Hpre).
  apply after_prefix_cons in Hpre as (c3 & s3 & -> & H3 & Hpre).
  apply after_prefix_cons in Hpre as (c4 & s4 & -> & H4 & Hpre).
  apply after_prefix_cons in Hpre as (c5 & s5 & -> & H5 & Hpre).
  injection Hpre as ->. apply lower_char_slash in H5 as ->.
  split; unfold match_exact; cbn [after_prefix].
  - rewrite <- H0, <- H1. reflexivity.
  - rewrite <- H0, <- H1, <- H2, <- H3, <- H4, !Ascii.eqb_refl.
    destruct rest; [contradiction | reflexivity].
Qed.

(** C1, as the code has it. A [GET] of [/blog/{slug}] that reaches the
    routes, when [blog/{slug}/index.html] cannot be sent (it is missing, or
    any other error) and the blog index can, is answered with the blog
    index file's content and status 404. *)
Theorem missing_post_serves_blog_index h st req slug err content :
  req_method req = GET ->
  static h st req = Next 200 ->
  match_param "/blog/" (req_path req) = Matched slug ->
  sendFile (fs h) (path_join [dirname h; "blog"; slug; "index.html"]) = inr err ->
  sendFile (fs h) (blog_index h) = inl content ->
  app h st req = quiet st {| status := 404; body := FileContent content |}.
Proof.
  intros Hm Hs Hp Hmiss Hidx.
  destruct (blog_slug_path _ _ Hp) as [Hgarage Hblog].
  unfold app. rewrite Hs. unfold routes. cbn [dispatch route_match].
  rewrite Hgarage, Hblog, Hp. unfold handles. cbn [route_method route_handler].
  rewrite Hm.
  assert (blog_slug h st 200 slug =
          Done (quiet st {| status := 404; body := FileContent content |}))
    as Hblogslug.
  { unfold blog_slug, send_or_fallback, send_or_next. now rewrite Hmiss, Hidx. }
  destruct (match_exact "/api/contact" (req_path req)) eqn:E.
  all: try now rewrite Hblogslug.
  now apply match_exact_not_bad in E.
Qed.

(** C2, as the code has it. A [GET] or [HEAD] request that reaches the
    routes, whose path matches no route registered before the wildcard and
    decodes, is answered with the site root index file and status 200 when
    that file can be sent. *)
Theorem unmatched_get_serves_root h st req decoded content :
  req_method req = GET \/ req_method req = HEAD ->
  static h st req = Next 200 ->
  Forall (fun r => handles r (req_method req) = true ->
                   route_match r (req_path req) = NoMatch)
         (removelast routes) ->
  decodeURIComponent (req_path req) = Some decoded ->
  sendFile (fs h) (root_index h) = inl content ->
  app h st req = quiet st {| status := 200; body := FileContent content |}.
Proof.
  intros Hm Hs Hno Hdec Hidx.
  assert (forall r, In r (removelast routes) -> route_method r = GET ->
                    route_match r (req_path req) = NoMatch) as Hget.
  { intros r Hr Hr'. rewrite Forall_forall in Hno.
    apply Hno; [now apply list_elem_of_In |].
    unfold handles. rewrite Hr'. now destruct Hm as [-> | ->]. }
  assert (match_star (req_path req) = Matched decoded) as Hstar.
  { unfold match_star, decode_param. rewrite Hdec.
    destruct (req_path req); [| reflexivity].
    now injection Hdec as <-. }
  assert (fallback h st 200 =
          Done (quiet st {| status := 200; body := FileContent content |}))
    as Hfall.
  { unfold fallback, send_or_next. now rewrite Hidx. }
  unfold app. rewrite Hs. unfold routes in *. cbn [removelast] in Hget.
  pose proof (Hget _ ltac:(right; left; reflexivity) eq_refl) as H1.
  pose proof (Hget _ ltac:(right; right; left; reflexivity) eq_refl) as H2.
  pose proof (Hget _ ltac:(right; right; right; left; reflexivity) eq_refl) as H3.
  pose proof (Hget _ ltac:(right; right; right; right; left; reflexivity) eq_refl)
    as H4.
  cbn [route_match] in H1, H2, H3, H4.
  cbn [dispatch route_match route_handler].
  rewrite H1, H2, H3, H4, Hstar, Hfall. unfold handles. cbn [route_method].
  destruct (match_exact "/api/contact" (req_path req)) eqn:E;
    [| | now apply match_exact_not_bad in E];
    destruct Hm as [-> | ->]; reflexivity.
Qed.

Lemma send_or_next_quiet h st code p :
  quiet_outcome st (send_or_next h st code p).
Proof.
  unfold send_or_next. destruct (sendFile (fs h) p) as [c | [| k]];
    simpl; auto.
  eexists; split; [reflexivity | discriminate].
Qed.

Lemma send_or_fallback_quiet h st code p q :
  quiet_outcome st (send_or_fallback h st code p q).
Proof.
  unfold send_or_fallback. destruct (sendFile (fs h) p) as [c | e].
  - simpl. eexists; split; [reflexivity | discriminate].
  - apply send_or_next_quiet.
Qed.

Lemma static_quiet h st req : quiet_outcome st (static h st req).
Proof.
  unfold static. repeat case_match; simpl; eauto;
    eexists; (split; [reflexivity | discriminate]).
Qed.

Lemma final_quiet h st req :
  exists r, final h st req None = quiet st r /\ r <> send_failed.
Proof. unfold final. eexists; split; [reflexivity | discriminate]. Qed.

(** Routes whose handlers are quiet give a passive answer. *)
Lemma dispatch_passive h st req rs :
  Forall (fun r => forall p code,
            quiet_outcome st (route_handler r h st req p code)) rs ->
  forall code options,
    passive h st req (dispatch h st req rs code options).
Proof.
  induction 1 as [|r rs Hr _ IH]; intros code options.
  - cbn [dispatch]. left.
    destruct (req_method req); try apply final_quiet.
    destruct options; [apply final_quiet |].
    eexists; split; [reflexivity | discriminate].
  - cbn [dispatch].
    destruct (route_match r (req_path req)) as [| p |];
      [apply IH | | right; eauto].
    destruct (handles r (req_method req)); [| apply IH].
    specialize (Hr p code).
    destruct (route_handler r h st req p code) as [e | k | k];
      simpl in Hr; [left; exact Hr | apply IH | right; eauto].
Qed.

Lemma get_routes_quiet h st req :
  Forall (fun r => forall p code,
            quiet_outcome st (route_handler r h st req p code)) (tl routes).
Proof.
  unfold routes. cbn [tl].
  repeat constructor; cbn [route_handler]; intros;
    first [ apply send_or_next_quiet | apply send_or_fallback_quiet ].
Qed.

Lemma dispatch_cons h st req r rest code options :
  dispatch h st req (r :: rest) code options =
  match route_match r (req_path req) with
  | NoMatch => dispatch h st req rest code options
  | BadParam => final h st req (Some 400)
  | Matched param =>
      if handles r (req_method req) then
        match route_handler r h st req param code with
        | Done e => e
        | Next code' => dispatch h st req rest code' options
        | NextError k => final h st req (Some k)
        end
      else
        dispatch h st req rest code
          (match req_method req with
           | OPTIONS => append_methods options (route_options r)
           | _ => options
           end)
  end.
Proof. reflexivity. Qed.

(** A request that is not a complete submission to the contact route is
    answered without the contact handler's 500, and changes no state, logs
    nothing and sends nothing, unless it ends in the final handler with an
    error. *)
Lemma app_passive h st req :
  attempts_send req = false -> passive h st req (app h st req).
Proof.
  intros Hno. unfold app.
  pose proof (static_quiet h st req) as Hs.
  destruct (static h st req) as [e | code | code];
    [left; exact Hs | | right; eauto].
  pose proof (dispatch_passive h st req _ (get_routes_quiet h st req)) as Hrest.
  unfold routes in *. cbn [tl] in Hrest.
  rewrite dispatch_cons. cbn [route_match route_handler].
  unfold attempts_send in Hno.
  destruct (match_exact "/api/contact" (req_path req)) as [| p |];
    [apply Hrest | | right; eauto].
  unfold handles. cbn [route_method].
  destruct (req_method req); try apply Hrest.
  rewrite contact_incomplete by exact Hno. left.
  eexists; split; [reflexivity | discriminate].
Qed.

(** What a passive answer leaves: the state as it was, no message, no log
    line with a second argument, and not the contact handler's 500. *)
Lemma passive_effect h st req e :
  passive h st req e ->
  state_after e = st /\ sent e = [] /\ answer e <> send_failed /\
  (logged e = [] \/ exists code, logged e = [(stack h req code, None)]).
Proof.
  intros [(r & -> & Hr) | (code & ->)].
  - cbn. auto.
  - cbn. repeat split; [discriminate |].
    destruct (String.eqb _ _); eauto.
Qed.

Lemma getResend_without_key env st :
  env !! "RESEND_API_KEY" = None -> resend st = None ->
  getResend env st = (Throw key_missing, st).
Proof. intros Hk Hr. unfold getResend. now rewrite Hr, Hk. Qed.

(** With a key, the first call creates the client and keeps it. *)
Lemma getResend_creates env st key :
  env !! "RESEND_API_KEY" = Some key -> nonempty key = true ->
  resend st = None ->
  getResend env st =
    (Ok {| api_key := key |}, {| resend := Some {| api_key := key |} |}).
Proof. intros Hk Hn Hr. unfold getResend. now rewrite Hr, Hk, Hn. Qed.

(** Once created, the client is returned again, whatever the environment. *)
Lemma getResend_reuses env st c :
  resend st = Some c -> getResend env st = (Ok c, st).
Proof. intros Hr. unfold getResend. now rewrite Hr. Qed.

End Router.

(** ** The properties at the sample site *)

Section Samples.

Import Sample.

(** Against C1 as stated: the post is missing, the blog index is sent,
    and the status is 404, not a success status. *)
Lemma missing_post_status_is_404 :
  disk !! "/srv/site/blog/does-not-exist/index.html" = None /\
  answer (app demo initial_state (get "/blog/does-not-exist")) =
    {| status := 404; body := FileContent "<h1>Blog</h1>" |} /\
  ~ (200 <= status (answer (app demo initial_state
                              (get "/blog/does-not-exist"))) < 300).
Proof.
  split; [vm_compute; reflexivity |].
  split; [vm_compute; reflexivity |].
  vm_compute. intros [_ H]. discriminate H.
Qed.

Lemma missing_post_at_sample :
  app demo initial_state (get "/blog/does-not-exist") =
  quiet initial_state {| status := 404; body := FileContent "<h1>Blog</h1>" |}.
Proof.
  apply (missing_post_serves_blog_index demo initial_state
           (get "/blog/does-not-exist") "does-not-exist" (HttpError 404)
           "<h1>Blog</h1>"); vm_compute; reflexivity.
Defined.

(** Against C2 as stated: a [POST] to a path no route matches is
    answered 404 by the final handler, not with the root page. *)
Lemma unmatched_post_is_404 :
  Forall (fun r => handles r POST = true ->
                   route_match r "/anything-unmatched" = NoMatch)
         (removelast routes) /\
  answer (app demo initial_state (post "/anything-unmatched" (JObj []))) =
    {| status := 404; body := DefaultPage |}.
Proof.
  split; [| vm_compute; reflexivity].
  unfold routes. cbn [removelast].
  repeat constructor; intros H; first [discriminate H | vm_compute; reflexivity].
Qed.

Lemma unmatched_get_at_sample :
  app demo initial_state (get "/anything-unmatched") =
  quiet initial_state
    {| status := 200; body := FileContent "<h1>Nate's Door Service</h1>" |}.
Proof.
  apply (unmatched_get_serves_root demo initial_state
           (get "/anything-unmatched") "/anything-unmatched").
  - left. reflexivity.
  - vm_compute. reflexivity.
  - unfold routes. cbn [removelast].
    repeat constructor; intros H; first [discriminate H | vm_compute; reflexivity].
  - vm_compute. reflexivity.
  - vm_compute. reflexivity.
Defined.

Lemma no_phone_at_sample :
  answer (app live initial_state (post "/api/contact" no_phone)) =
    {| status := 400;
       body := Json (JObj [("error",
                 JStr "Please fill in all required fields.")]) |} /\
  sent (app live initial_state (post "/api/contact" no_phone)) = [] /\
  logged (app live initial_state (post "/api/contact" no_phone)) = [] /\
  state_after (app live initial_state (post "/api/contact" no_phone)) =
    initial_state.
Proof.
  apply (incomplete_submission_rejected live initial_state
           (post "/api/contact" no_phone)).
  - reflexivity.
  - vm_compute. reflexivity.
  - right. left. left. reflexivity.
Defined.


Lemma jane_doe_at_sample :
  exists mail,
    contact key acknowledge initial_state jane =
      {| answer := {| status := 200;
                      body := Json (JObj [("success", JBool true)]) |};
         state_after := {| resend := Some {| api_key := "re_123" |} |};
         logged := []; sent := [({| api_key := "re_123" |}, mail)] |} /\
    subject mail = "New Quote Request from Jane Doe" /\
    includes "555-1234" (html mail) = true /\
    includes (mailto_open +:+ "jane@example.com" +:+ dq +:+ ">") (html mail) = true /\
    includes "Need a spring fixed" (html mail) = true.
Proof.
  apply (jane_doe_request key acknowledge initial_state).
  - vm_compute. reflexivity.
  - reflexivity.
Defined.


Lemma no_email_at_sample :
  exists c mail,
    (c, mail) ∈ sent (contact key acknowledge initial_state no_email) /\
    replyTo mail = None /\
    includes mailto_open (html mail) = false.
Proof.
  pose (c := {| api_key := "re_123" |}).
  pose (mail := mail_of key None "Jane Doe" "555-1234" EmptyString
                  "Need a spring fixed").
  assert ((c, mail) ∈ sent (contact key acknowledge initial_state no_email))
    as Hin.
  { vm_compute. apply list_elem_of_here. }
  exists c, mail. split; [exact Hin |].
  destruct (email_omitted_or_supplied _ _ _ _ _ _ Hin) as [Hnone _].
  destruct (Hnone eq_refl) as (Hr & _ & Hm). now split.
Defined.


(** Further runs of the model at the sample site. *)

Example escape_script :
  escape "<script>alert(1)</script>" = "&lt;script&gt;alert(1)&lt;/script&gt;".
Proof. reflexivity. Qed.

Example escape_keeps_ampersand : escape "a & b &lt; c" = "a & b &lt; c".
Proof. reflexivity. Qed.

Example safe_of_array :
  safe (Some (JArr [JNull; JStr "a<"; JArr [JBool true; JNull]])) =
  Ok ",a&lt;,true,".
Proof. reflexivity. Qed.

Example safe_of_object : safe (Some (JObj [("a", JNull)])) = Ok "[object Object]".
Proof. reflexivity. Qed.

Example safe_throws : safe (Some (JObj [("toString", JNull)])) = Throw cannot_convert.
Proof. reflexivity. Qed.

(** A name that cannot be converted to a string passes validation and is
    caught as a failure to send, after the client has been created. *)
Example unconvertible_name :
  contact key acknowledge initial_state
    (JObj [("name", JObj [("toString", JNull)]); ("phone", JStr "555-1234");
           ("message", JStr "hello")]) =
  {| answer := send_failed;
     state_after := {| resend := Some {| api_key := "re_123" |} |};
     logged := [("Resend error:",
                 Some (JStr "Cannot convert object to primitive value"))];
     sent := [] |}.
Proof. vm_compute. reflexivity. Qed.

(** [null], [false] and [0] as [email] give what the omitted email gives. *)
Example null_email_as_omitted :
  Forall (fun falsy =>
            contact key acknowledge initial_state
              (JObj [("name", JStr "Jane Doe"); ("phone", JStr "555-1234");
                     ("email", falsy);
                     ("message", JStr "Need a spring fixed")]) =
            contact key acknowledge initial_state no_email)
    [JNull; JBool false; JNum {| num_nonzero := false; num_text := "0" |};
     JStr EmptyString].
Proof. repeat constructor. Qed.

(** A truthy [email] that is not a string is passed to [replyTo] as it is. *)
Example array_email_reply_to :
  map (fun call => replyTo (snd call))
    (sent (contact key acknowledge initial_state
       (JObj [("name", JStr "Jane Doe"); ("phone", JStr "555-1234");
              ("email", JArr [JStr "<a@b.c>"]);
              ("message", JStr "hello")]))) =
  [Some (JArr [JStr "<a@b.c>"])].
Proof. vm_compute. reflexivity. Qed.

(** The second complete submission finds the client the first one made,
    even if the key has gone from the environment. *)
Example client_kept :
  let first := contact key acknowledge initial_state jane in
  let second := contact ∅ acknowledge (state_after first) jane in
  answer second = send_succeeded /\ state_after second = state_after first.
Proof. vm_compute. split; reflexivity. Qed.

Example get_root :
  answer (app demo initial_state (get "/")) =
  {| status := 200; body := FileContent "<h1>Nate's Door Service</h1>" |}.
Proof. vm_compute. reflexivity. Qed.

(** [express.static] answers [/blog] before the route does: the directory
    redirects to [/blog/], which serves the index. *)
Example get_blog :
  answer (app demo initial_state (get "/blog")) =
    {| status := 301; body := Redirect |} /\
  answer (app demo initial_state (get "/blog/")) =
    {| status := 200; body := FileContent "<h1>Blog</h1>" |}.
Proof. vm_compute. split; reflexivity. Qed.

Example get_post :
  answer (app demo initial_state (get "/blog/springs/")) =
  {| status := 200; body := FileContent "<h1>Springs</h1>" |}.
Proof. vm_compute. reflexivity. Qed.

Example get_missing_service :
  answer (app demo initial_state (get "/services/does-not-exist")) =
  {| status := 404; body := FileContent "<h1>Nate's Door Service</h1>" |}.
Proof. vm_compute. reflexivity. Qed.

Example get_bad_escape :
  app demo initial_state (get "/blog/%zz") =
  {| answer := {| status := 400; body := DefaultPage |};
     state_after := initial_state;
     logged := [("URIError: Failed to decode param", None)];
     sent := [] |}.
Proof. vm_compute. reflexivity. Qed.

Example options_contact :
  answer (app demo initial_state
            {| req_method := OPTIONS; req_path := "/api/contact";
               req_body := JObj [] |}) =
  {| status := 200; body := Allow ["POST"; "GET"; "HEAD"] |}.
Proof. vm_compute. reflexivity. Qed.

Example path_join_dots :
  path_join ["/srv/site"; "blog"; ".."; "index.html"] = "/srv/site/index.html".
Proof. reflexivity. Qed.

Example decode_em_dash :
  decodeURIComponent "a%20b%E2%80%94c" = Some "a b—c" /\
  decodeURIComponent "%E2%80" = None /\
  decodeURIComponent "%C0%80" = None.
Proof. vm_compute. repeat split; reflexivity. Qed.

End Samples.

(** ** The sanitiser, further *)

Section SanitiserMore.

Lemma replace_char_app (c : ascii) (rep a b : string) :
  replace_char c rep (a +:+ b) = replace_char c rep a +:+ replace_char c rep b.
Proof.
  induction a as [|x a IH]; [reflexivity |].
  rewrite append_cons. simpl. rewrite IH.
  destruct (Ascii.eqb x c); [now rewrite append_assoc | reflexivity].
Qed.

Lemma replace_char_fixed (c : ascii) (rep s : string) :
  has_char c rep = false -> replace_char c rep s = s -> has_char c s = false.
Proof.
  intros Hrep Hfix. rewrite <- Hfix. now apply replace_char_removes.
Qed.

(** X15. The sanitiser leaves a text unchanged exactly when the text holds
    neither [<] nor [>]: every other character, quotes and ampersands
    included, passes through as it is. *)
Theorem escape_fixed_points (s : string) :
  escape s = s <-> has_char "<" s = false /\ has_char ">" s = false.
Proof.
  split.
  - intros H. rewrite <- H. split; [apply escape_no_lt | apply escape_no_gt].
  - intros [Hlt Hgt]. now apply escape_clean.
Qed.

(** X16. Sanitising a text piece by piece gives the sanitised whole. *)
Theorem escape_app (a b : string) : escape (a +:+ b) = escape a +:+ escape b.
Proof. unfold escape. now rewrite !replace_char_app. Qed.

Lemma count_replace_other (c d : ascii) (rep s : string) :
  Ascii.eqb d c = false -> count_char c rep = 0%nat ->
  count_char c (replace_char d rep s) = count_char c s.
Proof.
  intros Hdc Hrep. induction s as [|x s IH]; [reflexivity |]. simpl.
  destruct (Ascii.eqb_spec x d) as [-> | Hx].
  - now rewrite count_char_app, Hrep, IH, Hdc.
  - simpl. now rewrite IH.
Qed.

Lemma length_app (a b : string) :
  String.length (a +:+ b) = (String.length a + String.length b)%nat.
Proof.
  induction a as [|x a IH]; [reflexivity |].
  rewrite append_cons. simpl. now rewrite IH.
Qed.

Lemma length_replace (c : ascii) (rep s : string) :
  (String.length (replace_char c rep s) + count_char c s =
   String.length s + String.length rep * count_char c s)%nat.
Proof.
  induction s as [|x s IH]; [simpl; lia |]. simpl.
  destruct (Ascii.eqb x c); [rewrite length_app | simpl]; lia.
Qed.

(** X20. The sanitiser changes nothing but [<] and [>]: the text grows by
    three characters for each of them, and every character other than
    [<], [>] and those of [&lt;] and [&gt;] occurs as often after as
    before, a double quote for one. *)
Theorem escape_changes_only_brackets (s : string) :
  String.length (escape s) =
    (String.length s + 3 * (count_char "<" s + count_char ">" s))%nat /\
  forall c, has_char c "<>&lgt;" = false ->
            count_char c (escape s) = count_char c s.
Proof.
  unfold escape. split.
  - pose proof (length_replace ">" "&gt;" (replace_char "<" "&lt;" s)) as H1.
    pose proof (length_replace "<" "&lt;" s) as H2.
    rewrite (count_replace_other ">" "<" "&lt;" s) in H1 by reflexivity.
    cbn [String.length] in H1, H2. lia.
  - intros c Hc. cbn [has_char] in Hc.
    repeat (apply orb_false_iff in Hc as [? Hc]).
    rewrite !count_replace_other; try assumption; try reflexivity;
      cbn [count_char];
      repeat match goal with
             | H : Ascii.eqb _ c = false |- _ => rewrite H; clear H
             end; reflexivity.
Qed.

End SanitiserMore.

(** ** POST /api/contact, further *)

Section ContactMore.

Lemma bind_throw {A B} (m : result A) (k : A -> result B) (e : thrown) :
  (m ≫= k) = Throw e -> m = Throw e \/ exists a, m = Ok a /\ k a = Throw e.
Proof.
  destruct m as [a | e']; simpl; [right; eauto | intros [= ->]; now left].
Qed.

(** Induction over a JSON value and the values inside it. *)
Lemma json_nested_ind (P : json -> Prop) :
  P JNull -> (forall b, P (JBool b)) -> (forall n, P (JNum n)) ->
  (forall s, P (JStr s)) ->
  (forall items, Forall P items -> P (JArr items)) ->
  (forall props, Forall (fun kv => P (snd kv)) props -> P (JObj props)) ->
  forall v, P v.
Proof.
  intros Hnull Hbool Hnum Hstr Harr Hobj.
  exact (fix F (v : json) : P v :=
           match v with
           | JNull => Hnull
           | JBool b => Hbool b
           | JNum n => Hnum n
           | JStr s => Hstr s
           | JArr items =>
               Harr items
                 ((fix go (l : list json) : Forall P l :=
                     match l with
                     | [] => @List.Forall_nil _ P
                     | x :: r => @List.Forall_cons _ P x r (F x) (go r)
                     end) items)
           | JObj props =>
               Hobj props
                 ((fix go (l : list (string * json))
                     : Forall (fun kv => P (snd kv)) l :=
                     match l with
                     | [] => @List.Forall_nil _ _
                     | kv :: r => @List.Forall_cons _ _ kv r (F (snd kv)) (go r)
                     end) props)
           end).
Qed.

(** The only exception [String(v)] throws. *)
Lemma to_string_throws (v : json) :
  forall e, to_string v = Throw e -> e = cannot_convert.
Proof.
  induction v as [| b | n | s | items IH | props _] using json_nested_ind;
    intros e; simpl.
  - discriminate.
  - destruct b; discriminate.
  - discriminate.
  - discriminate.
  - intros [H | (texts & _ & H)]%bind_throw; [| discriminate].
    revert e H. induction IH as [|x items Hx _ IHitems]; intros e H.
    + discriminate.
    + apply bind_throw in H as [H | (t & _ & H)].
      * destruct x; try discriminate H; now apply Hx.
      * apply bind_throw in H as [H | (ts & _ & H)]; [| discriminate].
        now apply IHitems.
  - destruct (own_prop "toString" props); [| discriminate].
    now intros [= <-].
Qed.

Lemma safe_throw (v : value) (e : thrown) :
  safe v = Throw e -> e = cannot_convert.
Proof.
  unfold safe. intros [H | (s & _ & H)]%bind_throw; [| discriminate].
  destruct (nullish_or v (Some (JStr EmptyString))); [| discriminate].
  now apply to_string_throws in H.
Qed.

Lemma build_email_throws env name phone email message e :
  build_email env name phone email message = Throw e -> e = cannot_convert.
Proof.
  unfold build_email. cbv zeta. intros H.
  repeat match type of H with
         | (_ ≫= _) = Throw _ =>
             apply bind_throw in H as [H | (? & _ & H)];
               [first [ now apply safe_throw in H | idtac ] |]
         end; try discriminate.
  destruct (truthy email); [| discriminate].
  apply bind_throw in H as [H | (? & _ & H)]; [now apply safe_throw in H |].
  apply bind_throw in H as [H | (? & _ & H)]; [now apply safe_throw in H |].
  discriminate.
Qed.

(** How [getResend] comes by the client it returns. *)
Lemma getResend_ok env st c st' :
  getResend env st = (Ok c, st') ->
  (resend st = Some c /\ st' = st) \/
  (resend st = None /\ env !! "RESEND_API_KEY" = Some (api_key c) /\
   nonempty (api_key c) = true /\ st' = {| resend := Some c |}).
Proof.
  unfold getResend. destruct (resend st) as [c0 |] eqn:Hr.
  - intros [= <- <-]. now left.
  - destruct (env !! "RESEND_API_KEY") as [key |]; [| discriminate].
    destruct (nonempty key) eqn:Hk; [| discriminate].
    intros [= <- <-]. right. auto.
Qed.

Lemma getResend_throw env st err st' :
  getResend env st = (Throw err, st') ->
  resend st = None /\
  (env !! "RESEND_API_KEY" = None \/
   env !! "RESEND_API_KEY" = Some EmptyString) /\
  err = key_missing /\ st' = st.
Proof.
  unfold getResend.
  destruct (resend st) as [c0 |]; [discriminate |].
  destruct (env !! "RESEND_API_KEY") as [[| a key] |]; simpl;
    try discriminate; intros [= <- <-]; auto.
Qed.

(** X6. [getResend] throws exactly when there is no client yet and
    [RESEND_API_KEY] is unset or empty; it then throws the configuration
    error and leaves the state as it was. *)
Theorem getResend_throws_iff env st err st' :
  getResend env st = (Throw err, st') <->
  resend st = None /\
  (env !! "RESEND_API_KEY" = None \/
   env !! "RESEND_API_KEY" = Some EmptyString) /\
  err = ErrorObject "RESEND_API_KEY is not set. Add it to your .env file." /\
  st' = st.
Proof.
  split; [apply getResend_throw |].
  unfold getResend. intros (-> & [-> | ->] & -> & ->); reflexivity.
Qed.

(** X7. Once [getResend] has returned a client, every later call returns
    the same client and leaves the state alone, whatever the environment
    has become. *)
Theorem getResend_keeps_client env st c st' :
  getResend env st = (Ok c, st') ->
  forall env', getResend env' st' = (Ok c, st').
Proof.
  intros [[Hr ->] | (_ & _ & _ & ->)]%getResend_ok env';
    unfold getResend; [now rewrite Hr | reflexivity].
Qed.

Lemma send_fails_state env collab st req_body err st' calls :
  send_fails env collab st req_body err st' calls ->
  snd (getResend env st) = st'.
Proof. intros [e s Hg | k s e Hg Hb | k s mail e Hg Hb Hr]; now rewrite Hg. Qed.

(** What the handler does with a complete body: the [try] block fails and
    the [catch] block answers, or the message is acknowledged. *)
Lemma contact_complete env collab st req_body :
  complete req_body = true ->
  (exists err st' calls,
      send_fails env collab st req_body err st' calls /\
      contact env collab st req_body = caught st' err calls) \/
  (exists c st' mail,
      getResend env st = (Ok c, st') /\
      build_email env (get_prop (Some req_body) "name")
        (get_prop (Some req_body) "phone") (get_prop (Some req_body) "email")
        (get_prop (Some req_body) "message") = Ok mail /\
      collab c mail = Resolved /\
      contact env collab st req_body =
        {| answer := send_succeeded; state_after := st';
           logged := []; sent := [(c, mail)] |}).
Proof.
  intros Hc.
  destruct (getResend env st) as [[c | err] st'] eqn:Hg.
  2: { left. exists err, st', []. split; [now apply fails_no_client |].
       now apply contact_no_client. }
  destruct (build_email env (get_prop (Some req_body) "name")
    (get_prop (Some req_body) "phone") (get_prop (Some req_body) "email")
    (get_prop (Some req_body) "message")) as [mail | err] eqn:Hb.
  2: { left. exists err, st', []. split; [now apply (fails_not_built _ _ _ _ c) |].
       now apply (contact_build_throws _ _ _ _ _ c). }
  pose proof (contact_settled _ collab _ _ _ _ _ Hc Hg Hb) as Hs.
  destruct (collab c mail) as [| err] eqn:Hr.
  - right. exists c, st', mail. auto.
  - left. exists err, st', [(c, mail)]. split; [| assumption].
    now apply fails_rejected.
Qed.

(** X8. The handler answers 400 exactly when a required field is falsy:
    validation looks at truthiness only, so a complete body is never
    answered 400, whatever the types of its fields. *)
Theorem rejected_iff_incomplete env collab st req_body :
  status (answer (contact env collab st req_body)) = 400 <->
  complete req_body = false.
Proof.
  split.
  - destruct (complete req_body) eqn:Hc; [| reflexivity].
    destruct (contact_complete env collab st req_body Hc)
      as [(err & st' & calls & _ & ->) | (c & st' & mail & _ & _ & _ & ->)];
      discriminate.
  - intros Hc. now rewrite contact_incomplete.
Qed.

(** X10. The handler answers 200 only after the collaborator acknowledged
    the one message it was handed; nothing is logged then. *)
Theorem success_means_acknowledged env collab st req_body :
  status (answer (contact env collab st req_body)) = 200 ->
  exists c mail,
    sent (contact env collab st req_body) = [(c, mail)] /\
    collab c mail = Resolved /\
    logged (contact env collab st req_body) = [] /\
    answer (contact env collab st req_body) =
      {| status := 200; body := Json (JObj [("success", JBool true)]) |}.
Proof.
  destruct (complete req_body) eqn:Hc.
  2: { rewrite contact_incomplete by exact Hc. discriminate. }
  destruct (contact_complete env collab st req_body Hc)
    as [(err & st' & calls & _ & ->) | (c & st' & mail & _ & _ & Hr & ->)];
    [discriminate |].
  intros _. now exists c, mail.
Qed.

(** X11. The handler logs exactly when it answers 500: one line, labelled
    [Resend error:]; a 400 or a 200 logs nothing. *)
Theorem logged_iff_failed env collab st req_body :
  (status (answer (contact env collab st req_body)) = 500 <->
   logged (contact env collab st req_body) <> []) /\
  (length (logged (contact env collab st req_body)) <= 1)%nat /\
  Forall (fun line => fst line = "Resend error:")
    (logged (contact env collab st req_body)).
Proof.
  destruct (complete req_body) eqn:Hc.
  2: { rewrite contact_incomplete by exact Hc. cbn.
       repeat split; try discriminate; try lia; try constructor.
       intros H. now contradiction H. }
  destruct (contact_complete env collab st req_body Hc)
    as [(err & st' & calls & _ & ->) | (c & st' & mail & _ & _ & _ & ->)]; cbn.
  - repeat split; try discriminate; try lia. repeat constructor.
  - repeat split; try discriminate; try lia; try constructor.
    intros H. now contradiction H.
Qed.

(** X9. A field that passes validation but cannot be converted to a string
    (an object with its own [toString], alone or inside an array) makes the
    handler answer 500: the client is there, the [TypeError] is caught and
    logged, and nothing is handed to the collaborator. *)
Theorem unconvertible_field_fails env collab st st' req_body c e :
  complete req_body = true ->
  getResend env st = (Ok c, st') ->
  safe (get_prop (Some req_body) "name") = Throw e \/
  safe (get_prop (Some req_body) "phone") = Throw e \/
  safe (get_prop (Some req_body) "message") = Throw e \/
  (truthy (get_prop (Some req_body) "email") = true /\
   safe (get_prop (Some req_body) "email") = Throw e) ->
  contact env collab st req_body =
    {| answer := {| status := 500;
                    body := Json (JObj [("error",
                              JStr "Failed to send email. Please try again.")]) |};
       state_after := st';
       logged := [("Resend error:",
                   Some (JStr "Cannot convert object to primitive value"))];
       sent := [] |}.
Proof.
  intros Hc Hg Hbad.
  destruct (build_email env (get_prop (Some req_body) "name")
    (get_prop (Some req_body) "phone") (get_prop (Some req_body) "email")
    (get_prop (Some req_body) "message")) as [mail | err] eqn:Hb.
  - apply build_email_ok in Hb as (n & p & x & m & Hn & Hp & Hm & He & _).
    destruct Hbad as [H | [H | [H | [Ht H]]]]; try congruence.
    rewrite Ht in He. congruence.
  - rewrite (contact_build_throws _ collab _ _ _ _ _ Hc Hg Hb).
    now rewrite (build_email_throws _ _ _ _ _ _ Hb).
Qed.

(** X12. A message is handed to the collaborator through the client the
    state holds or, when it holds none, through one made with the
    environment's non-empty [RESEND_API_KEY]. It goes from [FROM_EMAIL] to
    the single address [TO_EMAIL]; a variable that is set, even to the empty
    string, is used as it is, and the default stands in only when the
    variable is unset. *)
Theorem sender_and_recipient env collab st req_body c mail :
  (c, mail) ∈ sent (contact env collab st req_body) ->
  (resend st = Some c \/
   (resend st = None /\ env !! "RESEND_API_KEY" = Some (api_key c) /\
    api_key c <> EmptyString)) /\
  from mail = match env !! "FROM_EMAIL" with
              | Some address => address
              | None => "Nate's Door Service <onboarding@resend.dev>"
              end /\
  to mail = [match env !! "TO_EMAIL" with
             | Some address => address
             | None => "contact@natesdoorservice.com"
             end].
Proof.
  intros (_ & (st' & Hg) & Hb)%contact_sent.
  apply build_email_ok in Hb as (n & p & e & m & _ & _ & _ & _ & ->).
  split; [| split; reflexivity].
  apply getResend_ok in Hg as [[Hr _] | (Hr & Hk & Hn & _)]; [now left |].
  right. repeat split; try assumption. now destruct (api_key c).
Qed.

(** X13. The subject of a message handed to the collaborator is the fixed
    prefix followed by the sanitised name, and holds neither [<] nor [>]. *)
Theorem subject_sanitised env collab st req_body c mail :
  (c, mail) ∈ sent (contact env collab st req_body) ->
  exists n,
    safe (get_prop (Some req_body) "name") = Ok n /\
    subject mail = "New Quote Request from " +:+ n /\
    has_char "<" (subject mail) = false /\
    has_char ">" (subject mail) = false.
Proof.
  intros (_ & _ & Hb)%contact_sent.
  apply build_email_ok in Hb as (n & p & e & m & Hn & _ & _ & _ & ->).
  exists n. cbn [subject mail_of]. rewrite !has_char_app.
  rewrite (safe_no_lt _ _ Hn), (safe_no_gt _ _ Hn). auto.
Qed.

Lemma starts_with_app_same (a p s : string) :
  starts_with (a +:+ p) (a +:+ s) = starts_with p s.
Proof.
  induction a as [|x a IH]; [reflexivity |].
  rewrite !append_cons. simpl. now rewrite Ascii.eqb_refl.
Qed.

Lemma starts_with_includes (p s : string) :
  starts_with p s = true -> includes p s = true.
Proof. intros H. destruct s; simpl in *; now rewrite H. Qed.

(** The chunks of the template around the name, the phone number and the
    message. *)
Lemma html_head_end :
  exists before, html_head = before +:+ cell_open cell_style.
Proof.
  exists (substring 0 (String.length html_head
                        - String.length (cell_open cell_style)) html_head).
  vm_compute. reflexivity.
Qed.

Lemma html_phone_row_ends :
  exists between, html_phone_row = "</td>" +:+ between +:+ tel_open.
Proof.
  exists (substring 5 (String.length html_phone_row - 5
                        - String.length tel_open) html_phone_row).
  vm_compute. reflexivity.
Qed.

Lemma html_email_row_start :
  exists after, html_email_row = "</a>" +:+ after.
Proof.
  exists (substring 4 (String.length html_email_row - 4) html_email_row).
  vm_compute. reflexivity.
Qed.

Lemma html_message_row_end :
  exists before,
    html_message_row =
    before +:+ cell_open (cell_style +:+ " white-space:pre-wrap;").
Proof.
  exists (substring 0 (String.length html_message_row
            - String.length (cell_open (cell_style +:+ " white-space:pre-wrap;")))
            html_message_row).
  vm_compute. reflexivity.
Qed.

Lemma html_foot_start : exists after, html_foot = "</td>" +:+ after.
Proof.
  exists (substring 5 (String.length html_foot - 5) html_foot).
  vm_compute. reflexivity.
Qed.

(** The name, the phone link and the message of any body, whatever the
    email cell [cell] holds. *)
Lemma html_shows (n p m cell : string) :
  let body := html_head +:+ n +:+ html_phone_row +:+ p +:+ (dq +:+ ">") +:+ p +:+
              html_email_row +:+ cell +:+ html_message_row +:+ m +:+ html_foot in
  includes (cell_open cell_style +:+ n +:+ "</td>") body = true /\
  includes (tel_open +:+ p +:+ dq +:+ ">" +:+ p +:+ "</a>") body = true /\
  includes (cell_open (cell_style +:+ " white-space:pre-wrap;") +:+ m +:+ "</td>")
    body = true.
Proof.
  destruct html_head_end as [h ->].
  destruct html_phone_row_ends as [r ->].
  destruct html_email_row_start as [e ->].
  destruct html_message_row_end as [g ->].
  destruct html_foot_start as [f ->].
  cbv zeta. rewrite !append_assoc.
  repeat split;
    repeat first
      [ solve [ apply starts_with_includes;
                repeat match goal with
                       | |- starts_with (?a +:+ _) (?a +:+ _) = _ =>
                           rewrite (starts_with_app_same a)
                       end;
                apply starts_with_refl_app ]
      | apply includes_app_r ].
Qed.

Lemma html_with_email_cell (n p e m : string) :
  html_with_email n p e m =
  html_head +:+ n +:+ html_phone_row +:+ p +:+ (dq +:+ ">") +:+ p +:+
  html_email_row +:+ (mailto_open +:+ e +:+ (dq +:+ ">") +:+ e +:+ "</a>") +:+
  html_message_row +:+ m +:+ html_foot.
Proof. unfold html_with_email. now rewrite !append_assoc. Qed.

(** X14. The body of a message handed to the collaborator shows every
    required field: the sanitised name in its cell, the sanitised phone
    number as the text and the target of a [tel:] link, and the sanitised
    message in a cell that keeps its white space. *)
Theorem body_shows_fields env collab st req_body c mail :
  (c, mail) ∈ sent (contact env collab st req_body) ->
  exists n p m,
    safe (get_prop (Some req_body) "name") = Ok n /\
    safe (get_prop (Some req_body) "phone") = Ok p /\
    safe (get_prop (Some req_body) "message") = Ok m /\
    includes (cell_open cell_style +:+ n +:+ "</td>") (html mail) = true /\
    includes (tel_open +:+ p +:+ dq +:+ ">" +:+ p +:+ "</a>") (html mail) = true /\
    includes (cell_open (cell_style +:+ " white-space:pre-wrap;") +:+ m +:+ "</td>")
      (html mail) = true.
Proof.
  intros (_ & _ & Hb)%contact_sent.
  apply build_email_ok in Hb as (n & p & e & m & Hn & Hp & Hm & He & ->).
  exists n, p, m. cbn [html mail_of].
  do 3 (split; [assumption |]).
  destruct (truthy (get_prop (Some req_body) "email")) eqn:Ht.
  - rewrite (render_with_email _ _ _ _ _ Ht), html_with_email_cell.
    apply html_shows.
  - rewrite (render_without_email _ _ _ _ _ _ Ht). apply html_shows.
Qed.

End ContactMore.

(** ** The router, further *)

Section RouterMore.

Lemma attempts_send_true req :
  attempts_send req = true ->
  req_method req = POST /\
  match_exact "/api/contact" (req_path req) = Matched EmptyString /\
  complete (req_body req) = true.
Proof.
  unfold attempts_send.
  destruct (req_method req); try discriminate.
  unfold match_exact.
  destruct (after_prefix "/api/contact" (req_path req)); [| discriminate].
  destruct (_ || _); [| discriminate]. auto.
Qed.

Lemma contact_state env collab st req_body :
  complete req_body = true ->
  state_after (contact env collab st req_body) = snd (getResend env st).
Proof.
  intros Hc.
  destruct (contact_complete env collab st req_body Hc)
    as [(err & st' & calls & Hf & ->) | (c & st' & mail & Hg & _ & _ & ->)].
  - now rewrite (send_fails_state _ _ _ _ _ _ _ Hf).
  - now rewrite Hg.
Qed.

(** A complete submission uses the client [getResend] returns: the state
    is the one [getResend] leaves, and the message, once built, is handed
    to that client. *)
Lemma attempt_uses_client h st req c st' :
  attempts_send req = true ->
  getResend (env h) st = (Ok c, st') ->
  state_after (app h st req) = st' /\
  forall mail,
    build_email (env h) (get_prop (Some (req_body req)) "name")
      (get_prop (Some (req_body req)) "phone")
      (get_prop (Some (req_body req)) "email")
      (get_prop (Some (req_body req)) "message") = Ok mail ->
    sent (app h st req) = [(c, mail)].
Proof.
  intros (Hm & Hp & Hc)%attempts_send_true Hg.
  rewrite (app_contact _ _ _ Hm Hp). split.
  - now rewrite (contact_state _ _ _ _ Hc), Hg.
  - intros mail Hb. rewrite (contact_settled _ _ _ _ _ _ _ Hc Hg Hb).
    now destruct (collab h c mail).
Qed.

(** A complete submission that finds neither a client nor a key. *)
Lemma attempt_without_key h st req :
  attempts_send req = true -> resend st = None ->
  env h !! "RESEND_API_KEY" = None \/
  env h !! "RESEND_API_KEY" = Some EmptyString ->
  app h st req = caught st key_missing [].
Proof.
  intros (Hm & Hp & Hc)%attempts_send_true Hr Hk.
  rewrite (app_contact _ _ _ Hm Hp).
  apply (contact_no_client _ _ _ _ _ _ Hc).
  unfold getResend. rewrite Hr. now destruct Hk as [-> | ->].
Qed.

Lemma nonempty_neq key : key <> EmptyString -> nonempty key = true.
Proof. now destruct key. Qed.

(** C7. The client is created on the first attempt to send, not when the
    module is loaded, so the service runs without the credential. The
    server starts without a client. A request that does not attempt to
    send, with or without [RESEND_API_KEY], leaves the state as it was,
    sends nothing, is not answered with the failure of a delivery, and logs
    no line with an argument (so not the configuration error). The first
    attempt to send, when [RESEND_API_KEY] is set and not empty, creates
    the client with that key, keeps it in the state, and hands it the
    message once built; a later attempt finds the client and uses it,
    leaving the state alone. When [RESEND_API_KEY] is unset or empty the
    first attempt throws the configuration error, which the handler logs
    and answers with the 500 of a failed delivery, as it does any failure
    of an attempt. *)
Theorem client_created_on_first_send h :
  resend initial_state = None /\
  (forall st req, attempts_send req = false ->
     state_after (app h st req) = st /\
     sent (app h st req) = [] /\
     answer (app h st req) <> send_failed /\
     forall label v, (label, Some v) ∉ logged (app h st req)) /\
  (forall st req key,
     attempts_send req = true -> resend st = None ->
     env h !! "RESEND_API_KEY" = Some key -> key <> EmptyString ->
     state_after (app h st req) = {| resend := Some {| api_key := key |} |} /\
     forall mail,
       build_email (env h) (get_prop (Some (req_body req)) "name")
         (get_prop (Some (req_body req)) "phone")
         (get_prop (Some (req_body req)) "email")
         (get_prop (Some (req_body req)) "message") = Ok mail ->
       sent (app h st req) = [({| api_key := key |}, mail)]) /\
  (forall st req c,
     attempts_send req = true -> resend st = Some c ->
     state_after (app h st req) = st /\
     forall mail,
       build_email (env h) (get_prop (Some (req_body req)) "name")
         (get_prop (Some (req_body req)) "phone")
         (get_prop (Some (req_body req)) "email")
         (get_prop (Some (req_body req)) "message") = Ok mail ->
       sent (app h st req) = [(c, mail)]) /\
  (forall st req,
     attempts_send req = true -> resend st = None ->
     env h !! "RESEND_API_KEY" = None \/
     env h !! "RESEND_API_KEY" = Some EmptyString ->
     app h st req =
       {| answer := send_failed; state_after := st;
          logged := [("Resend error:",
            Some (JStr "RESEND_API_KEY is not set. Add it to your .env file."))];
          sent := [] |}) /\
  (forall st req err st' calls,
     attempts_send req = true ->
     send_fails (env h) (collab h) st (req_body req) err st' calls ->
     answer (app h st req) = send_failed).
Proof.
  split; [reflexivity |]. split; [| split; [| split; [| split]]].
  - intros st req Hno.
    destruct (passive_effect h st req _ (app_passive h st req Hno))
      as (Hst & Hsent & Hans & Hlog).
    repeat split; try assumption.
    intros label v Hin.
    destruct Hlog as [Hlog | [code Hlog]]; rewrite Hlog in Hin.
    + now apply elem_of_nil in Hin.
    + apply list_elem_of_singleton in Hin. discriminate.
  - intros st req key Ha Hr Hk Hne.
    apply (attempt_uses_client h st req _ _ Ha).
    apply getResend_creates; [exact Hk | now apply nonempty_neq | exact Hr].
  - intros st req c Ha Hr.
    apply (attempt_uses_client h st req _ _ Ha).
    now apply getResend_reuses.
  - intros st req Ha Hr Hk.
    now rewrite (attempt_without_key h st req Ha Hr Hk).
  - intros st req err st' calls (Hm & Hp & Hc)%attempts_send_true Hfail.
    rewrite (app_contact _ _ _ Hm Hp).
    now rewrite (contact_failing _ _ _ _ _ _ _ Hc Hfail).
Qed.

(** X5. Handling a request leaves the state as it was, except for one
    case: a complete submission that finds no client and a non-empty
    [RESEND_API_KEY] stores the client made with that key. So the state
    is left alone by a request that is not a complete submission, by any
    request once a client is there (it is never replaced or dropped), and
    by a complete submission when [RESEND_API_KEY] is unset or empty. *)
Theorem state_changes_once h st req :
  (forall key,
     attempts_send req = true -> resend st = None ->
     env h !! "RESEND_API_KEY" = Some key -> key <> EmptyString ->
     state_after (app h st req) = {| resend := Some {| api_key := key |} |}) /\
  (attempts_send req = false -> state_after (app h st req) = st) /\
  (forall c, resend st = Some c -> state_after (app h st req) = st) /\
  (env h !! "RESEND_API_KEY" = None \/
   env h !! "RESEND_API_KEY" = Some EmptyString ->
   state_after (app h st req) = st).
Proof.
  assert (attempts_send req = false -> state_after (app h st req) = st)
    as Hpassive.
  { intros Hno. apply (passive_effect h st req), app_passive, Hno. }
  split; [| split; [exact Hpassive | split]].
  - intros key Ha Hr Hk Hne.
    apply (attempt_uses_client h st req {| api_key := key |} _ Ha).
    apply getResend_creates; [exact Hk | now apply nonempty_neq | exact Hr].
  - intros c Hr. destruct (attempts_send req) eqn:Ha; [| now apply Hpassive].
    apply (attempt_uses_client h st req c _ Ha).
    now apply getResend_reuses.
  - intros Hk. destruct (attempts_send req) eqn:Ha; [| now apply Hpassive].
    destruct (resend st) as [c |] eqn:Hr.
    + apply (attempt_uses_client h st req c _ Ha).
      now apply getResend_reuses.
    + now rewrite (attempt_without_key h st req Ha Hr Hk).
Qed.

Lemma services_slug_path path slug :
  match_param "/services/" path = Matched slug ->
  match_exact "/garage-door-service-areas-kansas-city" path = NoMatch /\
  match_exact "/blog" path = NoMatch /\
  match_param "/blog/" path = NoMatch.
Proof.
  unfold match_param at 1.
  destruct (after_prefix "/services/" path) as [rest |] eqn:Hpre;
    [| discriminate].
  intros _.
  apply after_prefix_cons in Hpre as (c0 & s0 & -> & H0 & Hpre).
  apply after_prefix_cons in Hpre as (c1 & s1 & -> & H1 & Hpre).
  repeat split; unfold match_exact, match_param; cbn [after_prefix];
    rewrite <- H0, <- H1; reflexivity.
Qed.

Lemma blog_path path :
  match_exact "/blog" path = Matched EmptyString ->
  match_exact "/garage-door-service-areas-kansas-city" path = NoMatch.
Proof.
  unfold match_exact at 1.
  destruct (after_prefix "/blog" path) as [rest |] eqn:Hpre; [| discriminate].
  intros _.
  apply after_prefix_cons in Hpre as (c0 & s0 & -> & H0 & Hpre).
  apply after_prefix_cons in Hpre as (c1 & s1 & -> & H1 & Hpre).
  unfold match_exact; cbn [after_prefix]. rewrite <- H0, <- H1. reflexivity.
Qed.

(** A [GET] or [HEAD] request passes the contact route. *)
Lemma dispatch_routes_get h st req code :
  req_method req = GET \/ req_method req = HEAD ->
  dispatch h st req routes code [] = dispatch h st req (tl routes) code [].
Proof.
  intros Hm. unfold routes. rewrite dispatch_cons. cbn [tl route_match].
  destruct (match_exact "/api/contact" (req_path req)) eqn:E;
    [reflexivity | | now apply match_exact_not_bad in E].
  unfold handles. cbn [route_method].
  now destruct Hm as [-> | ->].
Qed.

Lemma handles_get (r : route) (m : method) :
  route_method r = GET -> m = GET \/ m = HEAD -> handles r m = true.
Proof. unfold handles. intros -> [-> | ->]; reflexivity. Qed.

(** X4. A [GET] or [HEAD] request that reaches the routes with the path
    [/garage-door-service-areas-kansas-city] or [/blog], in any letter case
    and with or without a final slash, is answered 200 with the index file
    of that folder when the file can be sent. *)
Theorem fixed_page_served h st req folder content :
  folder = "garage-door-service-areas-kansas-city" \/ folder = "blog" ->
  req_method req = GET \/ req_method req = HEAD ->
  static h st req = Next 200 ->
  match_exact ("/" +:+ folder) (req_path req) = Matched EmptyString ->
  sendFile (fs h) (path_join [dirname h; folder; "index.html"]) = inl content ->
  app h st req = quiet st {| status := 200; body := FileContent content |}.
Proof.
  intros Hf Hm Hs Hp Hidx. unfold app. rewrite Hs.
  rewrite (dispatch_routes_get _ _ _ _ Hm). unfold routes. cbn [tl].
  destruct Hf as [-> | ->].
  - rewrite dispatch_cons. cbn [route_match route_handler].
    change ("/" +:+ "garage-door-service-areas-kansas-city")
      with "/garage-door-service-areas-kansas-city" in Hp.
    rewrite Hp, handles_get by (reflexivity || assumption).
    unfold service_areas, service_areas_index, send_or_next. now rewrite Hidx.
  - change ("/" +:+ "blog") with "/blog" in Hp.
    rewrite dispatch_cons. cbn [route_match]. rewrite (blog_path _ Hp).
    rewrite dispatch_cons. cbn [route_match route_handler].
    rewrite Hp, handles_get by (reflexivity || assumption).
    unfold blog, blog_index, send_or_next. now rewrite Hidx.
Qed.

(** X2. A [GET] or [HEAD] request for [/blog/{slug}] or
    [/services/{slug}] that reaches the routes is answered 200 with the
    file [index.html] of the folder the decoded slug names, when that file
    can be sent. *)
Theorem page_found_is_served h st req section slug content :
  section = "blog" \/ section = "services" ->
  req_method req = GET \/ req_method req = HEAD ->
  static h st req = Next 200 ->
  match_param ("/" +:+ section +:+ "/") (req_path req) = Matched slug ->
  sendFile (fs h) (path_join [dirname h; section; slug; "index.html"]) =
    inl content ->
  app h st req = quiet st {| status := 200; body := FileContent content |}.
Proof.
  intros Hsec Hm Hs Hp Hfile. unfold app. rewrite Hs.
  rewrite (dispatch_routes_get _ _ _ _ Hm). unfold routes. cbn [tl].
  destruct Hsec as [-> | ->].
  - change ("/" +:+ "blog" +:+ "/") with "/blog/" in Hp.
    destruct (blog_slug_path _ _ Hp) as [Hg Hb].
    rewrite dispatch_cons. cbn [route_match]. rewrite Hg.
    rewrite dispatch_cons. cbn [route_match]. rewrite Hb.
    rewrite dispatch_cons. cbn [route_match route_handler].
    rewrite Hp, handles_get by (reflexivity || assumption).
    unfold blog_slug, send_or_fallback. now rewrite Hfile.
  - change ("/" +:+ "services" +:+ "/") with "/services/" in Hp.
    destruct (services_slug_path _ _ Hp) as (Hg & Hb & Hbs).
    rewrite dispatch_cons. cbn [route_match]. rewrite Hg.
    rewrite dispatch_cons. cbn [route_match]. rewrite Hb.
    rewrite dispatch_cons. cbn [route_match]. rewrite Hbs.
    rewrite dispatch_cons. cbn [route_match route_handler].
    rewrite Hp, handles_get by (reflexivity || assumption).
    unfold services_slug, send_or_fallback. now rewrite Hfile.
Qed.

(** X1. A [GET] or [HEAD] request for [/services/{slug}] that reaches the
    routes, when the page of the slug cannot be sent and the site root index
    can, is answered with the root index file's content and status 404. *)
Theorem missing_service_serves_root h st req slug err content :
  req_method req = GET \/ req_method req = HEAD ->
  static h st req = Next 200 ->
  match_param "/services/" (req_path req) = Matched slug ->
  sendFile (fs h) (path_join [dirname h; "services"; slug; "index.html"]) =
    inr err ->
  sendFile (fs h) (root_index h) = inl content ->
  app h st req = quiet st {| status := 404; body := FileContent content |}.
Proof.
  intros Hm Hs Hp Hmiss Hidx. unfold app. rewrite Hs.
  rewrite (dispatch_routes_get _ _ _ _ Hm). unfold routes. cbn [tl].
  destruct (services_slug_path _ _ Hp) as (Hg & Hb & Hbs).
  rewrite dispatch_cons. cbn [route_match]. rewrite Hg.
  rewrite dispatch_cons. cbn [route_match]. rewrite Hb.
  rewrite dispatch_cons. cbn [route_match]. rewrite Hbs.
  rewrite dispatch_cons. cbn [route_match route_handler].
  rewrite Hp, handles_get by (reflexivity || assumption).
  unfold services_slug, send_or_fallback, send_or_next.
  now rewrite Hmiss, Hidx.
Qed.




Lemma final_error h st req code :
  400 <= code -> 400 <= status (answer (final h st req (Some code))).
Proof. trivial. Qed.





(** [res.sendFile] of a normalised path that names no dot file reads that
    path. *)
Lemma sendFile_reads fs p :
  has_nul p = false -> up_path p = false ->
  dotfile_ignored (split_on "/" (normalize p)) = false ->
  normalize p = p -> ends_with_char "/" p = false ->
  sendFile fs p = match fs !! p with
                  | Some (File content) => inl content
                  | Some Directory => inr EISDIR
                  | Some Unreadable => inr (HttpError 500)
                  | None => inr (HttpError 404)
                  end.
Proof.
  intros Hnul Hup Hdot Hnorm Hend. unfold sendFile, read_file, stat.
  now rewrite Hnul, Hup, Hdot, Hnorm, Hend.
Qed.

(** X17. The slug is joined to the folder after decoding, so a slug with
    encoded slashes leaves the folder: for the site in [/srv/site], on any
    disk, [GET /blog/..%2F..%2Fsecret] is answered 200 with the file
    [/srv/secret/index.html], which is outside the site. *)
Theorem encoded_slug_leaves_site h st body content :
  dirname h = "/srv/site" ->
  fs h !! "/srv/secret/index.html" = Some (File content) ->
  app h st {| req_method := GET; req_path := "/blog/..%2F..%2Fsecret";
              req_body := body |} =
  quiet st {| status := 200; body := FileContent content |}.
Proof.
  destruct h as [d e f c s]. cbn [dirname fs]. intros -> Hfile.
  unfold app.
  replace (static _ st _) with (Next 200) by (vm_compute; reflexivity).
  rewrite dispatch_routes_get by (now left).
  unfold routes. cbn [tl].
  rewrite dispatch_cons. cbn [route_match req_path].
  replace (match_exact _ _) with NoMatch by (vm_compute; reflexivity).
  rewrite dispatch_cons. cbn [route_match req_path].
  replace (match_exact _ _) with NoMatch by (vm_compute; reflexivity).
  rewrite dispatch_cons. cbn [route_match route_handler req_path req_method].
  replace (match_param _ _) with (Matched "../../secret")
    by (vm_compute; reflexivity).
  cbn [handles route_method].
  unfold blog_slug, send_or_fallback. cbn [dirname fs].
  replace (path_join _) with "/srv/secret/index.html"
    by (vm_compute; reflexivity).
  rewrite sendFile_reads by (vm_compute; reflexivity).
  now rewrite Hfile.
Qed.

Lemma split_on_none c t : has_char c t = false -> split_on c t = [t].
Proof.
  induction t as [|x t IH]; [reflexivity |]. simpl.
  intros [Hx Ht]%orb_false_iff. rewrite Hx, IH by exact Ht. reflexivity.
Qed.

(** The last piece of a split is what follows the last separator. *)
Lemma split_on_last c s t :
  has_char c t = false ->
  exists first rest, split_on c (s +:+ String c t) = first :: rest ++ [t].
Proof.
  intros Ht. induction s as [|x s (first & rest & IH)].
  - exists EmptyString, []. rewrite append_empty_l. cbn [split_on].
    now rewrite Ascii.eqb_refl, split_on_none.
  - rewrite append_cons. cbn [split_on]. rewrite IH.
    destruct (Ascii.eqb x c).
    + now exists EmptyString, (first :: rest).
    + now exists (String x first), rest.
Qed.

(** A last segment that is a name stays the last segment. *)
Lemma normalize_segments_last allow x segs :
  x <> EmptyString -> x <> "." -> x <> ".." ->
  forall kept, exists init,
    normalize_segments allow kept (segs ++ [x]) = init ++ [x].
Proof.
  intros H0 H1 H2.
  induction segs as [|seg segs IH]; intros kept.
  - exists (rev kept). rewrite app_nil_l. cbn [normalize_segments].
    apply String.eqb_neq in H0, H1, H2. rewrite H0, H1, H2.
    cbn [orb rev]. reflexivity.
  - rewrite <- app_comm_cons. cbn [normalize_segments].
    repeat case_match; apply IH.
Qed.

Lemma concat_cons2 (sep a : string) (l : list string) :
  l <> [] -> String.concat sep (a :: l) = a +:+ sep +:+ String.concat sep l.
Proof. destruct l; [contradiction | reflexivity]. Qed.

Lemma concat_last (sep x : string) (init : list string) :
  exists dir, String.concat sep (init ++ [x]) = dir +:+ x /\
              (dir = EmptyString \/ exists d, dir = d +:+ sep).
Proof.
  induction init as [|a init (dir & IH & Hdir)].
  - exists EmptyString. auto.
  - rewrite <- app_comm_cons, concat_cons2, IH by (now destruct init).
    destruct Hdir as [-> | [d ->]].
    + exists (a +:+ sep). rewrite append_assoc. eauto.
    + exists (a +:+ sep +:+ d +:+ sep). rewrite !append_assoc.
      split; [reflexivity |].
      right. exists (a +:+ sep +:+ d). now rewrite !append_assoc.
Qed.

Lemma ends_with_char_app c a b :
  b <> EmptyString -> ends_with_char c (a +:+ b) = ends_with_char c b.
Proof.
  intros Hb. induction a as [|x a IH]; [reflexivity |].
  rewrite append_cons. cbn [ends_with_char]. rewrite IH.
  destruct (a +:+ b) eqn:E; [| reflexivity].
  destruct a; [contradiction Hb; exact E | discriminate E].
Qed.

(** Normalising a path whose last segment is [index.html] gives such a
    path. *)
Lemma normalize_index (pre : string) :
  pre = EmptyString \/ (exists d, pre = d +:+ "/") ->
  exists dir,
    normalize (pre +:+ "index.html") = dir +:+ "index.html" /\
    (dir = EmptyString \/ exists d, dir = d +:+ "/").
Proof.
  intros Hpre.
  assert (exists segs, split_on "/" (pre +:+ "index.html")
                       = segs ++ ["index.html"]) as [segs Hsplit].
  { destruct Hpre as [-> | [d ->]].
    - now exists [].
    - rewrite append_assoc.
      change (d +:+ "/" +:+ "index.html") with (d +:+ String "/" "index.html").
      destruct (split_on_last "/" d "index.html" eq_refl) as (a & r & ->).
      now exists (a :: r). }
  assert (ends_with_char "/" (pre +:+ "index.html") = false) as Hend.
  { rewrite ends_with_char_app; [reflexivity | discriminate]. }
  assert (nonempty (pre +:+ "index.html") = true) as Hne.
  { destruct pre; reflexivity. }
  unfold normalize. rewrite Hne, Hend, Hsplit. cbn [negb].
  destruct (normalize_segments_last
              (negb (starts_with "/" (pre +:+ "index.html")))
              "index.html" segs ltac:(discriminate) ltac:(discriminate)
              ltac:(discriminate) []) as [init ->].
  destruct (concat_last "/" "index.html" init) as (dir & -> & Hdir).
  replace (nonempty (dir +:+ "index.html")) with true
    by (destruct dir; reflexivity).
  cbn [negb]. rewrite append_empty_r.
  destruct (starts_with "/" _).
  - exists ("/" +:+ dir). rewrite append_assoc. split; [reflexivity |].
    right. destruct Hdir as [-> | [d ->]]; [now exists EmptyString |].
    exists ("/" +:+ d). now rewrite append_assoc.
  - exists dir. auto.
Qed.

(** Joining anything with a final [index.html] names a file [index.html]. *)
Lemma path_join_index (args : list string) :
  exists dir,
    path_join (args ++ ["index.html"]) = dir +:+ "index.html" /\
    (dir = EmptyString \/ exists d, dir = d +:+ "/").
Proof.
  unfold path_join. rewrite List.filter_app. cbn [List.filter nonempty].
  destruct (List.filter nonempty args ++ ["index.html"]) as [|u used] eqn:E.
  { now destruct (List.filter nonempty args). }
  rewrite <- E. clear E u used.
  destruct (concat_last "/" "index.html" (List.filter nonempty args))
    as (pre & -> & Hpre).
  now apply normalize_index.
Qed.

(** What [res.sendFile] sends for such a path is a file [index.html] of
    the disk. *)
Lemma sendFile_index fs (args : list string) content :
  sendFile fs (path_join (args ++ ["index.html"])) = inl content ->
  exists dir,
    fs !! (dir +:+ "index.html") = Some (File content) /\
    (dir = EmptyString \/ exists d, dir = d +:+ "/").
Proof.
  destruct (path_join_index args) as (pre & -> & Hpre).
  destruct (normalize_index pre Hpre) as (dir & Hnorm & Hdir).
  unfold sendFile, read_file, stat. rewrite Hnorm.
  rewrite ends_with_char_app by discriminate. cbn [ends_with_char andb].
  repeat case_match; try discriminate.
  intros [= <-]. eauto.
Qed.

(** X19. Whatever the path asked for and the folder of the site, a file
    that a [GET] route sends, be it the page asked for or a fallback, is a
    file of the disk named [index.html]. *)
Theorem routes_send_index_files h st req r param code e :
  In r (tl routes) ->
  route_handler r h st req param code = Done e ->
  exists dir content,
    body (answer e) = FileContent content /\
    fs h !! (dir +:+ "index.html") = Some (File content) /\
    (dir = EmptyString \/ exists d, dir = d +:+ "/").
Proof.
  assert (forall (k : Z) (q : list string),
            send_or_next h st k (path_join (q ++ ["index.html"])) = Done e ->
            exists dir content,
              body (answer e) = FileContent content /\
              fs h !! (dir +:+ "index.html") = Some (File content) /\
              (dir = EmptyString \/ exists d, dir = d +:+ "/")) as Hnext.
  { intros k q. unfold send_or_next.
    destruct (sendFile (fs h) (path_join (q ++ ["index.html"])))
      as [c | [| k']] eqn:Hq; try discriminate.
    intros [= <-]. apply sendFile_index in Hq as (dir & Hfile & Hdir).
    now exists dir, c. }
  assert (forall p q : list string,
            send_or_fallback h st code (path_join (p ++ ["index.html"]))
              (path_join (q ++ ["index.html"])) = Done e ->
            exists dir content,
              body (answer e) = FileContent content /\
              fs h !! (dir +:+ "index.html") = Some (File content) /\
              (dir = EmptyString \/ exists d, dir = d +:+ "/")) as Hsend.
  { intros p q. unfold send_or_fallback.
    destruct (sendFile (fs h) (path_join (p ++ ["index.html"])))
      as [c | err] eqn:Hp; [| apply Hnext].
    intros [= <-]. apply sendFile_index in Hp as (dir & Hfile & Hdir).
    now exists dir, c. }
  unfold routes. cbn [tl].
  intros [<- | [<- | [<- | [<- | [<- | []]]]]]; cbn [route_handler].
  - apply (Hnext code [dirname h; "garage-door-service-areas-kansas-city"]).
  - apply (Hnext code [dirname h; "blog"]).
  - apply (Hsend [dirname h; "blog"; param] [dirname h; "blog"]).
  - apply (Hsend [dirname h; "services"; param] [dirname h]).
  - apply (Hnext code [dirname h]).
Qed.

(** Routes that do not answer the method of a request, which is not
    [OPTIONS], leave it to the final handler, with the error of the first
    parameter that does not decode, if there is one. *)
Lemma dispatch_unhandled h st req rs code :
  Forall (fun r => handles r (req_method req) = false) rs ->
  req_method req <> OPTIONS ->
  dispatch h st req rs code [] =
    if existsb (fun r => match route_match r (req_path req) with
                         | BadParam => true
                         | _ => false
                         end) rs
    then final h st req (Some 400)
    else final h st req None.
Proof.
  intros Hrs Hm. induction Hrs as [|r rs Hr _ IH].
  - cbn [dispatch existsb]. now destruct (req_method req).
  - rewrite dispatch_cons. cbn [existsb].
    destruct (route_match r (req_path req)); cbn [orb];
      [exact IH | | reflexivity].
    rewrite Hr. now destruct (req_method req).
Qed.

(** X21. Pages are for [GET] and [HEAD] only: a [POST] to a path that is
    not the contact route, and any request with a method other than [GET],
    [HEAD], [POST] and [OPTIONS], ends in the final handler, whatever is on
    disk. When the parameter of some route does not decode in the path, the
    answer is 400 and the stack of the error is written with
    [console.error], unless [NODE_ENV] is [test]; otherwise the answer is
    404 and nothing is logged. No state changes and nothing is sent. *)
Theorem other_methods_get_no_page h st req :
  (req_method req = POST /\
   match_exact "/api/contact" (req_path req) = NoMatch) \/
  (exists name, req_method req = OtherMethod name) ->
  app h st req =
    if bad_param (req_path req) then
      {| answer := {| status := 400; body := DefaultPage |};
         state_after := st;
         logged := if String.eqb (app_env (env h)) "test" then []
                   else [(stack h req 400, None)];
         sent := [] |}
    else
      {| answer := {| status := 404; body := DefaultPage |};
         state_after := st; logged := []; sent := [] |}.
Proof.
  intros Hm. unfold app.
  assert (static h st req = Next 200) as ->.
  { unfold static. now destruct Hm as [[-> _] | [name ->]]. }
  assert (Forall (fun r => handles r (req_method req) = false) (tl routes))
    as Hget.
  { unfold routes, handles. cbn [tl].
    repeat constructor; cbn [route_method];
      now destruct Hm as [[-> _] | [name ->]]. }
  assert (req_method req <> OPTIONS) as Hopt.
  { now destruct Hm as [[-> _] | [name ->]]. }
  pose proof (dispatch_unhandled h st req _ 200 Hget Hopt) as Hrest.
  unfold bad_param, routes in *. cbn [tl] in Hrest.
  rewrite dispatch_cons. cbn [existsb route_match].
  destruct Hm as [[Hpost ->] | [name Hname]]; [exact Hrest |].
  destruct (match_exact "/api/contact" (req_path req)) eqn:E;
    [exact Hrest | | now apply match_exact_not_bad in E].
  unfold handles. cbn [route_method orb]. rewrite Hname. exact Hrest.
Qed.

End RouterMore.

(** ** Start-up *)

Section StartUp.

(** The callback of [app.listen] runs when the port is not one that is
    known to be refused and the server comes to listen. *)
Lemma listen_runs env platform outcome up :
  listen env platform outcome = Some up ->
  bad_port (PORT env) = false /\ outcome = Listens /\
  listen env platform Listens = Some up.
Proof.
  unfold listen. destruct (bad_port (PORT env)); [discriminate |].
  destruct outcome; [discriminate | auto].
Qed.

(** X18. The server announces itself and opens the browser only once it
    listens: when [PORT] is empty or a decimal number above 65535, which
    [app.listen] refuses, or when the port cannot be had, nothing is
    announced or executed. When it listens, on every platform, the command
    given to [exec] is a launcher ([open] on darwin, [start] on win32,
    [xdg-open] anywhere else) followed by the URL the start-up line
    announces, and the port of that URL is the one given to [app.listen]:
    [PORT] as it is when set, 3000 when unset. *)
Theorem browser_opens_listening_port env platform outcome :
  (bad_port (PORT env) = true \/ outcome = Refused ->
   listen env platform outcome = None) /\
  (env !! "PORT" = Some EmptyString \/ env !! "PORT" = Some "99999" ->
   listen env platform outcome = None) /\
  (env !! "PORT" = None -> exists up, listen env platform Listens = Some up) /\
  (forall up, listen env platform outcome = Some up ->
     bad_port (PORT env) = false /\ outcome = Listens /\
     (env !! "PORT" = None -> listened up = "3000") /\
     (forall port, env !! "PORT" = Some port -> listened up = port) /\
     includes ("http://localhost:" +:+ listened up +:+ nl) (announced up)
       = true /\
     exists launcher,
       executed up = launcher +:+ " http://localhost:" +:+ listened up /\
       (platform = "darwin" -> launcher = "open") /\
       (platform = "win32" -> launcher = "start") /\
       (platform <> "darwin" -> platform <> "win32" ->
        launcher = "xdg-open")).
Proof.
  split; [| split; [| split]].
  - unfold listen. intros [-> | ->]; [reflexivity |].
    now destruct (bad_port (PORT env)).
  - unfold listen, PORT, env_or. now intros [-> | ->].
  - unfold listen, PORT, env_or. intros ->. cbn. eauto.
  - intros up (Hport & -> & Hup)%listen_runs.
    split; [exact Hport |]. split; [reflexivity |].
    unfold listen in Hup. rewrite Hport in Hup.
    injection Hup as <-. cbn [listened announced executed].
    assert (forall p, starts_with p p = true) as Hrefl.
    { intros p. rewrite <- (starts_with_refl_app p EmptyString) at 1.
      now rewrite append_empty_r. }
    split; [unfold PORT, env_or; now intros -> |].
    split; [unfold PORT, env_or; now intros port -> |].
    split.
    { rewrite !append_assoc.
      do 2 apply includes_app_r. apply starts_with_includes, Hrefl. }
    destruct (String.eqb_spec platform "darwin") as [-> | Hd];
      [| destruct (String.eqb_spec platform "win32") as [-> | Hw]].
    + exists "open". repeat split; try reflexivity; try discriminate.
      intros H; now contradiction H.
    + exists "start". repeat split; try reflexivity; try discriminate.
      intros _ H; now contradiction H.
    + exists "xdg-open". repeat split; try reflexivity;
        intros ->; contradiction.
Qed.

End StartUp.

(** ** The further properties at the sample sites *)

Section SamplesMore.

Import Sample.

Lemma missing_service_at_sample :
  app demo initial_state (get "/services/does-not-exist") =
  quiet initial_state
    {| status := 404; body := FileContent "<h1>Nate's Door Service</h1>" |}.
Proof.
  apply (missing_service_serves_root demo initial_state
           (get "/services/does-not-exist") "does-not-exist" (HttpError 404));
    try (now left); vm_compute; reflexivity.
Defined.

Lemma page_found_at_sample :
  app Elsewhere.site initial_state (get "/BLOG/springs") =
  quiet initial_state {| status := 200; body := FileContent "<h1>Springs</h1>" |}.
Proof.
  apply (page_found_is_served Elsewhere.site initial_state
           (get "/BLOG/springs") "blog" "springs");
    try (now left); vm_compute; reflexivity.
Defined.


Example unsent_page_under_test :
  app bare_test initial_state (get "/blog/does-not-exist") =
    quiet initial_state {| status := 404; body := DefaultPage |}.
Proof. vm_compute. reflexivity. Qed.

Lemma first_send_at_sample :
  resend initial_state = None /\
  state_after (app live initial_state (get "/blog")) = initial_state /\
  state_after (app live initial_state (post "/api/contact" jane)) =
    {| resend := Some {| api_key := "re_123" |} |} /\
  sent (app live initial_state (post "/api/contact" jane)) =
    [({| api_key := "re_123" |},
      mail_of key (Some (JStr "jane@example.com")) "Jane Doe" "555-1234"
        "jane@example.com" "Need a spring fixed")] /\
  state_after (app live {| resend := Some {| api_key := "re_123" |} |}
                 (post "/api/contact" jane)) =
    {| resend := Some {| api_key := "re_123" |} |}.
Proof.
  destruct (client_created_on_first_send live)
    as (Hstart & Hpassive & Hfirst & Hlater & _).
  split; [exact Hstart |].
  split; [apply Hpassive; reflexivity |].
  destruct (Hfirst initial_state (post "/api/contact" jane) "re_123")
    as [Hstate Hsent]; [reflexivity | reflexivity | reflexivity | discriminate |].
  split; [exact Hstate |].
  split; [apply Hsent; vm_compute; reflexivity |].
  apply (Hlater _ (post "/api/contact" jane) {| api_key := "re_123" |});
    reflexivity.
Defined.

Lemma client_stored_at_sample :
  state_after (app live initial_state (post "/api/contact" jane)) =
    {| resend := Some {| api_key := "re_123" |} |} /\
  state_after (app demo initial_state (post "/api/contact" jane)) =
    initial_state.
Proof.
  split.
  - destruct (state_changes_once live initial_state (post "/api/contact" jane))
      as [Hstored _].
    apply Hstored; [reflexivity | reflexivity | reflexivity | discriminate].
  - destruct (state_changes_once demo initial_state (post "/api/contact" jane))
      as (_ & _ & _ & Hkept).
    apply Hkept. left. reflexivity.
Defined.

Lemma fixed_page_at_sample :
  app Elsewhere.site initial_state
    (get "/Garage-Door-Service-Areas-Kansas-City/") =
  quiet initial_state
    {| status := 200; body := FileContent "<h1>Service areas</h1>" |}.
Proof.
  apply (fixed_page_served Elsewhere.site initial_state
           (get "/Garage-Door-Service-Areas-Kansas-City/")
           "garage-door-service-areas-kansas-city");
    try (now left); vm_compute; reflexivity.
Defined.

Lemma client_kept_at_sample :
  getResend ∅ {| resend := Some {| api_key := "re_123" |} |} =
  (Ok {| api_key := "re_123" |},
   {| resend := Some {| api_key := "re_123" |} |}).
Proof.
  refine (getResend_keeps_client key initial_state _ _ _ ∅).
  vm_compute. reflexivity.
Defined.

Lemma unconvertible_at_sample :
  contact key acknowledge initial_state
    (JObj [("name", JArr [JObj [("toString", JNull)]]);
           ("phone", JStr "555-1234"); ("message", JStr "hello")]) =
  {| answer := {| status := 500;
                  body := Json (JObj [("error",
                            JStr "Failed to send email. Please try again.")]) |};
     state_after := {| resend := Some {| api_key := "re_123" |} |};
     logged := [("Resend error:",
                 Some (JStr "Cannot convert object to primitive value"))];
     sent := [] |}.
Proof.
  apply (unconvertible_field_fails key acknowledge initial_state _ _
           {| api_key := "re_123" |} cannot_convert).
  - reflexivity.
  - vm_compute. reflexivity.
  - left. reflexivity.
Defined.

Lemma acknowledged_at_sample :
  exists c mail,
    sent (contact key acknowledge initial_state jane) = [(c, mail)] /\
    acknowledge c mail = Resolved /\
    logged (contact key acknowledge initial_state jane) = [] /\
    answer (contact key acknowledge initial_state jane) =
      {| status := 200; body := Json (JObj [("success", JBool true)]) |}.
Proof.
  apply (success_means_acknowledged key acknowledge initial_state jane).
  vm_compute. reflexivity.
Defined.

Lemma sender_at_sample :
  exists c mail,
    (c, mail) ∈ sent (contact key acknowledge initial_state jane) /\
    api_key c = "re_123" /\
    from mail = "Nate's Door Service <onboarding@resend.dev>" /\
    to mail = ["contact@natesdoorservice.com"].
Proof.
  pose (c := {| api_key := "re_123" |}).
  pose (mail := mail_of key (Some (JStr "jane@example.com")) "Jane Doe"
                  "555-1234" "jane@example.com" "Need a spring fixed").
  assert ((c, mail) ∈ sent (contact key acknowledge initial_state jane)) as Hin.
  { vm_compute. apply list_elem_of_here. }
  exists c, mail. split; [exact Hin |]. split; [reflexivity |].
  destruct (sender_and_recipient _ _ _ _ _ _ Hin) as (_ & Hfrom & Hto).
  split; [exact Hfrom | exact Hto].
Defined.

Lemma subject_at_sample :
  exists c mail,
    (c, mail) ∈ sent (contact key acknowledge initial_state script) /\
    subject mail =
      "New Quote Request from &lt;script&gt;alert(1)&lt;/script&gt;" /\
    has_char "<" (subject mail) = false.
Proof.
  pose (c := {| api_key := "re_123" |}).
  pose (mail := mail_of key None "&lt;script&gt;alert(1)&lt;/script&gt;"
                  "555-1234" EmptyString "hello").
  assert ((c, mail) ∈ sent (contact key acknowledge initial_state script))
    as Hin.
  { vm_compute. apply list_elem_of_here. }
  exists c, mail. split; [exact Hin |].
  destruct (subject_sanitised _ _ _ _ _ _ Hin) as (n & _ & _ & Hlt & _).
  split; [reflexivity | exact Hlt].
Defined.

Lemma fields_at_sample :
  exists c mail,
    (c, mail) ∈ sent (contact key acknowledge initial_state jane) /\
    includes (tel_open +:+ "555-1234" +:+ dq +:+ ">" +:+ "555-1234" +:+ "</a>")
      (html mail) = true.
Proof.
  pose (c := {| api_key := "re_123" |}).
  pose (mail := mail_of key (Some (JStr "jane@example.com")) "Jane Doe"
                  "555-1234" "jane@example.com" "Need a spring fixed").
  assert ((c, mail) ∈ sent (contact key acknowledge initial_state jane)) as Hin.
  { vm_compute. apply list_elem_of_here. }
  exists c, mail. split; [exact Hin |].
  destruct (body_shows_fields _ _ _ _ _ _ Hin)
    as (n & p & m & _ & Hp & _ & _ & Htel & _).
  apply Ok_inj in Hp. subst p. exact Htel.
Defined.

Lemma encoded_slug_at_sample :
  app Elsewhere.site initial_state (get "/blog/..%2F..%2Fsecret") =
  quiet initial_state
    {| status := 200; body := FileContent "not for the public" |}.
Proof.
  apply (encoded_slug_leaves_site Elsewhere.site initial_state (JObj []));
    vm_compute; reflexivity.
Defined.

Lemma index_files_at_sample :
  exists dir content,
    FileContent "<h1>Blog</h1>" = FileContent content /\
    disk !! (dir +:+ "index.html") = Some (File content) /\
    (dir = EmptyString \/ exists d, dir = d +:+ "/").
Proof.
  apply (routes_send_index_files demo initial_state (get "/blog/does-not-exist")
           {| route_method := GET;
              route_match := match_param "/blog/";
              route_handler := fun h st _ slug code => blog_slug h st code slug |}
           "does-not-exist" 200
           (quiet initial_state
              {| status := 404; body := FileContent "<h1>Blog</h1>" |})).
  - right. right. left. reflexivity.
  - vm_compute. reflexivity.
Defined.

Lemma put_at_sample :
  app demo initial_state (put "/blog") =
    {| answer := {| status := 404; body := DefaultPage |};
       state_after := initial_state; logged := []; sent := [] |} /\
  app demo initial_state (put "/blog/%zz") =
    {| answer := {| status := 400; body := DefaultPage |};
       state_after := initial_state;
       logged := [("URIError: Failed to decode param", None)];
       sent := [] |}.
Proof.
  split.
  - exact (other_methods_get_no_page demo initial_state (put "/blog")
             (or_intror (ex_intro _ "PUT" eq_refl))).
  - exact (other_methods_get_no_page demo initial_state (put "/blog/%zz")
             (or_intror (ex_intro _ "PUT" eq_refl))).
Defined.

Lemma start_at_sample :
  listen {[ "PORT" := "99999" ]} "linux" Listens = None /\
  exists up,
    listen ∅ "darwin" Listens = Some up /\
    listened up = "3000" /\
    executed up = "open http://localhost:3000".
Proof.
  split.
  - destruct (browser_opens_listening_port {[ "PORT" := "99999" ]} "linux"
                Listens) as (_ & Hrefused & _).
    apply Hrefused. right. reflexivity.
  - destruct (browser_opens_listening_port ∅ "darwin" Listens)
      as (_ & _ & [up Hup] & Hruns); [reflexivity |].
    exists up. split; [exact Hup |].
    destruct (Hruns up Hup)
      as (_ & _ & Hport & _ & _ & launcher & Hexec & Hopen & _).
    split; [now apply Hport |].
    now rewrite Hexec, (Hport eq_refl), (Hopen eq_refl).
Defined.

End SamplesMore.
